(** * chemprop featurization: molecule graphs and batches

    A shallow embedding of [chemprop/features/featurization.py]: the feature
    encoders, the single-molecule graph builder [MolGraph.__init__] (molecule
    and reaction branches), [map_reac_to_prod], the batch collator
    [BatchMolGraph] with [get_components], [get_b2b] and [get_a2a], the
    module's global settings, and [mol2graph].

    Python values are modelled as follows.
    - [int] indices and counts that the code only ever produces non-negative
      are [nat]; categorical atom and bond properties are [Z].
    - feature values ([bool], [int] and [float] entries of a feature list) are
      rationals [Q]; the float product [GetMass() * 0.01] is the exact product.
    - a [dict] is a [gmap]; a [list] is a [list]; a torch tensor is the nested
      list it was made from.
    - a raised exception is the left summand of [result]; statements run in
      source order, so the first exception raised is the one returned.
    - an RDKit molecule is the list of its atoms and the list of its bonds;
      [GetIdx] of an atom or bond is its position in that list. *)

From stdpp Require Import base numbers list strings gmap.
From Stdlib Require Import QArith.

Close Scope Q_scope.

(** ** Exceptions and the error monad *)

Inductive exn : Set :=
  | AttributeError
  | IndexError
  | KeyError
  | NotImplementedError
  | RuntimeError
  | TypeError
  | UnboundLocalError
  | ValueError.

#[global] Instance exn_eq_dec : EqDecision exn.
Proof. solve_decision. Defined.

Definition result (A : Type) : Type := exn + A.

#[global] Instance result_ret : MRet result := λ A x, inr x.

#[global] Instance result_bind : MBind result := λ A B k c,
  match c with
  | inl e => inl e
  | inr x => k x
  end.

#[global] Instance result_fmap : FMap result := λ A B f c,
  match c with
  | inl e => inl e
  | inr x => inr (f x)
  end.

Definition ret {A} (x : A) : result A := mret x.
Definition raise {A} (e : exn) : result A := inl e.

(** [for x in xs: st = body(x, st)], stopping at the first exception. *)
Fixpoint for_each {A S} (body : A → S → result S) (xs : list A) (st : S)
  : result S :=
  match xs with
  | [] => ret st
  | x :: xs' => st' ← body x st; for_each body xs' st'
  end.

(** A list comprehension [[f(x) for x in xs]] whose element expression may
    raise. *)
Fixpoint comprehension {A B} (f : A → result B) (xs : list A)
  : result (list B) :=
  match xs with
  | [] => ret []
  | x :: xs' => y ← f x; ys ← comprehension f xs'; ret (y :: ys)
  end.

(** The spec's two error classes, read off the [raise] statements of the
    source: [NotImplementedError] is raised for an unsupported configuration,
    [ValueError] for extra-feature arrays that do not fit the molecule. *)
Definition is_configuration_error (e : exn) : bool :=
  match e with NotImplementedError => true | _ => false end.

Definition is_data_integrity_error (e : exn) : bool :=
  match e with ValueError => true | _ => false end.

Definition raises {A} (P : exn → bool) (r : result A) : bool :=
  match r with inl e => P e | inr _ => false end.

(** ** Python list and dict primitives *)

(** [l[i]] for [i >= 0]. *)
Definition getitem {A} (l : list A) (i : nat) : result A :=
  match l !! i with
  | Some x => ret x
  | None => raise IndexError
  end.

(** [l[i] = v] for any integer [i]; a negative [i] counts from the end. *)
Definition setitem {A} (l : list A) (i : Z) (v : A) : result (list A) :=
  let n := Z.of_nat (length l) in
  let j := (if bool_decide (i < 0)%Z then i + n else i)%Z in
  if bool_decide (0 ≤ j < n)%Z then ret (<[Z.to_nat j := v]> l)
  else raise IndexError.

(** [l.index(v)]. *)
Definition list_index (l : list Z) (v : Z) : result Z :=
  match list_find (λ x, x = v) l with
  | Some (i, _) => ret (Z.of_nat i)
  | None => raise ValueError
  end.

(** [d[k]] on a dict with string keys. *)
Definition dict_getitem {V} (d : gmap string V) (k : string) : result V :=
  match d !! k with
  | Some v => ret v
  | None => raise KeyError
  end.

(** [l[a].append(x)] on a list of lists. *)
Definition append_at {A} (l : list (list A)) (a : nat) (x : A)
  : result (list (list A)) :=
  row ← getitem l a; ret (<[a := row ++ [x]]> l).

(** [max(xs)] of a sequence of lengths. *)
Definition py_max (xs : list nat) : result nat :=
  match xs with
  | [] => raise ValueError
  | x :: xs' => ret (foldl Nat.max x xs')
  end.

(** ** RDKit objects *)

Inductive HybridizationType : Set :=
  | UNSPECIFIED | S_ | SP | SP2 | SP3 | SP2D | SP3D | SP3D2 | OTHER.

(** The enumeration is an [int] subclass: [int(h)]. *)
Definition int_of_hybridization (h : HybridizationType) : Z :=
  match h with
  | UNSPECIFIED => 0 | S_ => 1 | SP => 2 | SP2 => 3 | SP3 => 4
  | SP2D => 5 | SP3D => 6 | SP3D2 => 7 | OTHER => 8
  end%Z.

Inductive BondType : Set :=
  | SINGLE | DOUBLE | TRIPLE | AROMATIC | OTHER_BOND.

#[global] Instance BondType_eq_dec : EqDecision BondType.
Proof. solve_decision. Defined.

Record Atom : Type := {
  GetAtomicNum : Z;
  GetTotalDegree : Z;
  GetFormalCharge : Z;
  GetChiralTag : Z;
  GetTotalNumHs : Z;
  GetHybridization : HybridizationType;
  GetIsAromatic : bool;
  GetMass : Q;
  GetAtomMapNum : Z
}.

Record Bond : Type := {
  GetBeginAtomIdx : nat;
  GetEndAtomIdx : nat;
  GetBondType : option BondType;
  GetIsConjugated : bool;
  IsInRing : bool;
  GetStereo : Z
}.

Record Mol : Type := {
  GetAtoms : list Atom;
  GetBonds : list Bond
}.

Definition GetNumAtoms (m : Mol) : nat := length (GetAtoms m).

(** [mol.GetAtomWithIdx(i)]: RDKit's range check fails with a
    [RuntimeError]. *)
Definition GetAtomWithIdx (m : Mol) (i : nat) : result Atom :=
  match GetAtoms m !! i with
  | Some a => ret a
  | None => raise RuntimeError
  end.

Definition joins (i j : nat) (b : Bond) : bool :=
  bool_decide (GetBeginAtomIdx b = i ∧ GetEndAtomIdx b = j)
  || bool_decide (GetBeginAtomIdx b = j ∧ GetEndAtomIdx b = i).

(** [mol.GetBondBetweenAtoms(i, j)]: the bond with its [GetIdx()], or [None];
    both indices are range checked first. *)
Definition GetBondBetweenAtoms (m : Mol) (i j : nat)
  : result (option (nat * Bond)) :=
  if bool_decide (i < GetNumAtoms m ∧ j < GetNumAtoms m)
  then ret (list_find (λ b, joins i j b = true) (GetBonds m))
  else raise RuntimeError.

(** ** Module constants and globals (lines 8-39) *)

Definition MAX_ATOMIC_NUM : nat := 100.

Definition ATOM_FEATURES : gmap string (list Z) :=
  list_to_map [
    ("atomic_num", seqZ 0 (Z.of_nat MAX_ATOMIC_NUM));
    ("degree", [0; 1; 2; 3; 4; 5]%Z);
    ("formal_charge", [-1; -2; 1; 2; 0]%Z);
    ("chiral_tag", [0; 1; 2; 3]%Z);
    ("num_Hs", [0; 1; 2; 3; 4]%Z);
    ("hybridization", int_of_hybridization <$> [SP; SP2; SP3; SP3D; SP3D2])
  ].

Definition ATOM_FDIM : nat :=
  map_fold (λ _ choices acc, length choices + 1 + acc) 0 ATOM_FEATURES + 2.

Definition BOND_FDIM : nat := 14.

(** The module's mutable globals, passed explicitly. *)
Record Globals : Type := {
  EXTRA_ATOM_FDIM : nat;
  EXTRA_BOND_FDIM : nat;
  REACTION_MODE : option string;
  EXPLICIT_H : bool;
  REACTION : bool
}.

Definition initial_globals : Globals :=
  {| EXTRA_ATOM_FDIM := 0; EXTRA_BOND_FDIM := 0; REACTION_MODE := None;
     EXPLICIT_H := false; REACTION := false |}.

Definition get_atom_fdim (G : Globals) (overwrite_default_atom : bool) : nat :=
  (if overwrite_default_atom then 0 else 1) * ATOM_FDIM + EXTRA_ATOM_FDIM G.

Definition set_explicit_h (explicit_h : bool) (G : Globals) : Globals :=
  {| EXTRA_ATOM_FDIM := EXTRA_ATOM_FDIM G; EXTRA_BOND_FDIM := EXTRA_BOND_FDIM G;
     REACTION_MODE := REACTION_MODE G; EXPLICIT_H := explicit_h;
     REACTION := REACTION G |}.

Definition set_reaction (reaction : bool) (mode : string) (G : Globals)
  : Globals :=
  if reaction then
    {| EXTRA_ATOM_FDIM := ATOM_FDIM - MAX_ATOMIC_NUM - 1;
       EXTRA_BOND_FDIM := BOND_FDIM;
       REACTION_MODE := Some mode;
       EXPLICIT_H := EXPLICIT_H G;
       REACTION := reaction |}
  else
    {| EXTRA_ATOM_FDIM := EXTRA_ATOM_FDIM G; EXTRA_BOND_FDIM := EXTRA_BOND_FDIM G;
       REACTION_MODE := REACTION_MODE G; EXPLICIT_H := EXPLICIT_H G;
       REACTION := reaction |}.

Definition is_explicit_h (G : Globals) : bool := EXPLICIT_H G.
Definition is_reaction (G : Globals) : bool := REACTION G.
Definition reaction_mode (G : Globals) : option string := REACTION_MODE G.

(** Lines 96-107: the body of [get_bond_fdim] is its docstring alone, so a
    call evaluates to [None] whatever the arguments. *)
Definition get_bond_fdim (atom_messages overwrite_default_bond
    overwrite_default_atom : bool) : option nat :=
  None.

(** ** Feature encoders (lines 114-173) *)

Definition onek_encoding_unk (value : Z) (choices : list Z)
  : result (list Q) :=
  let encoding := replicate (length choices + 1) 0%Q in
  index ← (if bool_decide (value ∈ choices) then list_index choices value
            else ret (-1)%Z);
  setitem encoding index 1%Q.

Definition Q_of_bool (b : bool) : Q := if b then 1%Q else 0%Q.

Definition atom_features (atom : option Atom)
    (functional_groups : option (list Q)) : result (list Q) :=
  match atom with
  | None => ret (replicate ATOM_FDIM 0%Q)
  | Some atom =>
      c1 ← dict_getitem ATOM_FEATURES "atomic_num";
      e1 ← onek_encoding_unk (GetAtomicNum atom - 1) c1;
      c2 ← dict_getitem ATOM_FEATURES "degree";
      e2 ← onek_encoding_unk (GetTotalDegree atom) c2;
      c3 ← dict_getitem ATOM_FEATURES "formal_charge";
      e3 ← onek_encoding_unk (GetFormalCharge atom) c3;
      c4 ← dict_getitem ATOM_FEATURES "chiral_tag";
      e4 ← onek_encoding_unk (GetChiralTag atom) c4;
      c5 ← dict_getitem ATOM_FEATURES "num_hs";
      e5 ← onek_encoding_unk (GetTotalNumHs atom) c5;
      c6 ← dict_getitem ATOM_FEATURES "hybridization";
      e6 ← onek_encoding_unk
              (int_of_hybridization (GetHybridization atom)) c6;
      let features :=
        e1 ++ e2 ++ e3 ++ e4 ++ e5 ++ e6
           ++ [Q_of_bool (GetIsAromatic atom)]
           ++ [(GetMass atom * (1 # 100))%Q] in
      match functional_groups with
      | Some fg => ret (features ++ fg)
      | None => ret features
      end
  end.

Definition bond_features (bond : option Bond) : result (list Q) :=
  match bond with
  | None => ret ([1%Q] ++ replicate (BOND_FDIM - 1) 0%Q)
  | Some bond =>
      let bt := GetBondType bond in
      let fbond :=
        [ 0%Q;
          Q_of_bool (bool_decide (bt = Some SINGLE));
          Q_of_bool (bool_decide (bt = Some DOUBLE));
          Q_of_bool (bool_decide (bt = Some TRIPLE));
          Q_of_bool (bool_decide (bt = Some AROMATIC));
          (if bt is Some _ then Q_of_bool (GetIsConjugated bond) else 0%Q);
          (if bt is Some _ then Q_of_bool (IsInRing bond) else 0%Q) ] in
      e ← onek_encoding_unk (GetStereo bond) (seqZ 0 6);
      ret (fbond ++ e)
  end.

(** ** [map_reac_to_prod] (lines 175-204) *)

(** [enumerate(xs)]: each element with its [GetIdx()]. *)
Definition enumerate {A} (xs : list A) : list (nat * A) :=
  imap (λ i x, (i, x)) xs.

(** The first loop, over the product's atoms (lines 185-192). *)
Definition prod_step (mapnos_reac : gset Z)
    (acc : list nat * gmap Z nat) (ia : nat * Atom) : list nat * gmap Z nat :=
  let '(only_prod_ids, prod_map_to_id) := acc in
  let '(idx, atom) := ia in
  let mapno := GetAtomMapNum atom in
  if bool_decide (0 < mapno)%Z then
    let prod_map_to_id := <[mapno := idx]> prod_map_to_id in
    if bool_decide (mapno ∉ mapnos_reac)
    then (only_prod_ids ++ [idx], prod_map_to_id)
    else (only_prod_ids, prod_map_to_id)
  else (only_prod_ids ++ [idx], prod_map_to_id).

(** The second loop (lines 195-204). The [return] statement is the last
    statement of the loop body, so the function returns at the end of the
    first iteration; with no reactant atom the body never runs and the
    function ends without a [return], which yields [None]. The [else] clause
    belongs to the [try] statement: it runs when the lookup raised nothing. *)
Definition reac_loop (prod_map_to_id : gmap Z nat) (only_prod_ids : list nat)
    (atoms : list (nat * Atom))
  : option (gmap nat nat * list nat * list nat) :=
  let only_reac_ids : list nat := [] in
  let reac_id_to_prod_id : gmap nat nat := ∅ in
  match atoms with
  | [] => None
  | (idx, atom) :: _ =>
      let mapno := GetAtomMapNum atom in
      let '(reac_id_to_prod_id, only_reac_ids) :=
        if bool_decide (0 < mapno)%Z then
          match prod_map_to_id !! mapno with
          | Some pid =>
              (<[idx := pid]> reac_id_to_prod_id, only_reac_ids ++ [idx])
          | None => (reac_id_to_prod_id, only_reac_ids ++ [idx])
          end
        else (reac_id_to_prod_id, only_reac_ids) in
      Some (reac_id_to_prod_id, only_prod_ids, only_reac_ids)
  end.

Definition map_reac_to_prod (mol_reac mol_prod : Mol)
  : option (gmap nat nat * list nat * list nat) :=
  let mapnos_reac : gset Z :=
    list_to_set (GetAtomMapNum <$> GetAtoms mol_reac) in
  let '(only_prod_ids, prod_map_to_id) :=
    foldl (prod_step mapnos_reac) ([], ∅) (enumerate (GetAtoms mol_prod)) in
  reac_loop prod_map_to_id only_prod_ids (enumerate (GetAtoms mol_reac)).

(** ** [MolGraph] (lines 206-376) *)

(** The constructor's [mol] argument once it is no longer a string: one
    molecule, or a (reactant, product) tuple. The string case first calls the
    external SMILES parser and is not modelled. *)
Inductive mol_input : Type :=
  | OneMol (m : Mol)
  | MolPair (reac prod : Mol).

(** [mol.GetAtoms()]: a tuple has no such attribute. *)
Definition as_mol (mol : mol_input) : result Mol :=
  match mol with
  | OneMol m => ret m
  | MolPair _ _ => raise AttributeError
  end.

(** [mol[0]], [mol[1]]: an RDKit molecule is not subscriptable. *)
Definition as_pair (mol : mol_input) : result (Mol * Mol) :=
  match mol with
  | OneMol _ => raise TypeError
  | MolPair r p => ret (r, p)
  end.

(** Values an instance attribute can hold. *)
Inductive value : Type :=
  | VBool (b : bool)
  | VInt (n : nat)
  | VMode (s : option string)
  | VFeatures (rows : list (list Q))
  | VRows (rows : list (list nat))
  | VIndices (xs : list nat).

(** Python truthiness, as [not] and [if] test it. *)
Definition truth (v : value) : bool :=
  match v with
  | VBool b => b
  | VInt n => negb (n =? 0)
  | VMode s => match s with Some s => negb (String.eqb s EmptyString) | None => false end
  | VFeatures rows => negb (bool_decide (rows = []))
  | VRows rows => negb (bool_decide (rows = []))
  | VIndices xs => negb (bool_decide (xs = []))
  end.

Module MolGraph.

Record t : Type := mk {
  is_reaction : bool;
  is_explicit_h : bool;
  reaction_mode : option string;
  n_atoms : nat;
  n_bonds : nat;
  f_atoms : list (list Q);
  f_bonds : list (list Q);
  a2b : list (list nat);
  b2a : list nat;
  b2revb : list nat;
  overwrite_default_atom_features : bool;
  overwrite_default_bond_features : bool
}.

(** The instance attributes by name: [self.<name>]. The class defines no
    attribute of its own besides [__init__]. *)
Definition attributes (self : t) : gmap string value :=
  list_to_map [
    ("is_reaction", VBool (is_reaction self));
    ("is_explicit_h", VBool (is_explicit_h self));
    ("reaction_mode", VMode (reaction_mode self));
    ("n_atoms", VInt (n_atoms self));
    ("n_bonds", VInt (n_bonds self));
    ("f_atoms", VFeatures (f_atoms self));
    ("f_bonds", VFeatures (f_bonds self));
    ("a2b", VRows (a2b self));
    ("b2a", VIndices (b2a self));
    ("b2revb", VIndices (b2revb self));
    ("overwrite_default_atom_features",
      VBool (overwrite_default_atom_features self));
    ("overwrite_default_bond_features",
      VBool (overwrite_default_bond_features self))
  ].

Definition getattr (self : t) (name : string) : result value :=
  match attributes self !! name with
  | Some v => ret v
  | None => raise AttributeError
  end.

(** [self.<field> = v], one assignment per field the constructor writes
    after its initialisation. *)
Definition set_n_atoms (v : nat) (self : t) : t :=
  mk (is_reaction self) (is_explicit_h self) (reaction_mode self) v
     (n_bonds self) (f_atoms self) (f_bonds self) (a2b self) (b2a self)
     (b2revb self) (overwrite_default_atom_features self)
     (overwrite_default_bond_features self).

Definition set_n_bonds (v : nat) (self : t) : t :=
  mk (is_reaction self) (is_explicit_h self) (reaction_mode self)
     (n_atoms self) v (f_atoms self) (f_bonds self) (a2b self) (b2a self)
     (b2revb self) (overwrite_default_atom_features self)
     (overwrite_default_bond_features self).

Definition set_f_atoms (v : list (list Q)) (self : t) : t :=
  mk (is_reaction self) (is_explicit_h self) (reaction_mode self)
     (n_atoms self) (n_bonds self) v (f_bonds self) (a2b self) (b2a self)
     (b2revb self) (overwrite_default_atom_features self)
     (overwrite_default_bond_features self).

Definition set_f_bonds (v : list (list Q)) (self : t) : t :=
  mk (is_reaction self) (is_explicit_h self) (reaction_mode self)
     (n_atoms self) (n_bonds self) (f_atoms self) v (a2b self) (b2a self)
     (b2revb self) (overwrite_default_atom_features self)
     (overwrite_default_bond_features self).

Definition set_a2b (v : list (list nat)) (self : t) : t :=
  mk (is_reaction self) (is_explicit_h self) (reaction_mode self)
     (n_atoms self) (n_bonds self) (f_atoms self) (f_bonds self) v
     (b2a self) (b2revb self) (overwrite_default_atom_features self)
     (overwrite_default_bond_features self).

Definition set_b2a (v : list nat) (self : t) : t :=
  mk (is_reaction self) (is_explicit_h self) (reaction_mode self)
     (n_atoms self) (n_bonds self) (f_atoms self) (f_bonds self)
     (a2b self) v (b2revb self) (overwrite_default_atom_features self)
     (overwrite_default_bond_features self).

Definition set_b2revb (v : list nat) (self : t) : t :=
  mk (is_reaction self) (is_explicit_h self) (reaction_mode self)
     (n_atoms self) (n_bonds self) (f_atoms self) (f_bonds self) (a2b self)
     (b2a self) v (overwrite_default_atom_features self)
     (overwrite_default_bond_features self).

End MolGraph.

(** [for a1 in range(n): for a2 in range(a1 + 1, n)], in loop order. *)
Definition atom_pairs (n : nat) : list (nat * nat) :=
  flat_map (λ a1, pair a1 <$> seq (a1 + 1) (n - (a1 + 1))) (seq 0 n).

(** Lines 291-299 and, character for character, 368-376: the two directed
    edges of the pair [(a1, a2)] are appended to the index mappings. *)
Definition update_index_mappings (a1 a2 : nat) (self : MolGraph.t)
  : result MolGraph.t :=
  let b1 := MolGraph.n_bonds self in
  let b2 := b1 + 1 in
  rows ← append_at (MolGraph.a2b self) a2 b1;
  let self := MolGraph.set_a2b rows self in
  let self := MolGraph.set_b2a (MolGraph.b2a self ++ [a1]) self in
  rows ← append_at (MolGraph.a2b self) a1 b2;
  let self := MolGraph.set_a2b rows self in
  let self := MolGraph.set_b2a (MolGraph.b2a self ++ [a2]) self in
  let self := MolGraph.set_b2revb (MolGraph.b2revb self ++ [b2]) self in
  let self := MolGraph.set_b2revb (MolGraph.b2revb self ++ [b1]) self in
  ret (MolGraph.set_n_bonds (MolGraph.n_bonds self + 2) self).

(** Lines 287-288 and 364-365. *)
Definition append_edge_features (a1 a2 : nat) (f_bond : list Q)
    (self : MolGraph.t) : result MolGraph.t :=
  fa1 ← getitem (MolGraph.f_atoms self) a1;
  let self := MolGraph.set_f_bonds (MolGraph.f_bonds self ++ [fa1 ++ f_bond]) self in
  fa2 ← getitem (MolGraph.f_atoms self) a2;
  let self := MolGraph.set_f_bonds (MolGraph.f_bonds self ++ [fa2 ++ f_bond]) self in
  ret self.

(** The loop body of lines 275-299. Both arms of the overwrite test assign
    the extra descriptor alone. *)
Definition molecule_edge (mol : Mol) (bond_features_extra : option (list (list Q)))
    (overwrite_default_bond_features : bool) (pair : nat * nat)
    (self : MolGraph.t) : result MolGraph.t :=
  let '(a1, a2) := pair in
  bond ← GetBondBetweenAtoms mol a1 a2;
  match bond with
  | None => ret self
  | Some (idx, bond) =>
      f_bond ← bond_features (Some bond);
      f_bond ← match bond_features_extra with
               | None => ret f_bond
               | Some extra =>
                   descr ← getitem extra idx;
                   if overwrite_default_bond_features then ret descr
                   else ret descr
               end;
      self ← append_edge_features a1 a2 f_bond self;
      update_index_mappings a1 a2 self
  end.

(** Lines 273-299: the edge loop of the molecule branch. *)
Definition molecule_edges (mol : Mol) (bond_features_extra : option (list (list Q)))
    (overwrite_default_bond_features : bool) (self : MolGraph.t)
  : result MolGraph.t :=
  for_each (molecule_edge mol bond_features_extra overwrite_default_bond_features)
    (atom_pairs (MolGraph.n_atoms self)) self.

(** [x is not None and test(x)]. *)
Definition is_not_none_and {A} (x : option A) (test : A → bool) : bool :=
  match x with
  | Some v => test v
  | None => false
  end.

(** Lines 256-302: the molecule branch. The bond check compares
    [len(bond_features_extra)] with the quotient [n_bonds / 2], which is
    exact here because it is compared with an integer. *)
Definition init_molecule (mol : mol_input)
    (atom_features_extra bond_features_extra : option (list (list Q)))
    (overwrite_default_atom_features overwrite_default_bond_features : bool)
    (self : MolGraph.t) : result MolGraph.t :=
  mol ← as_mol mol;
  fa ← comprehension (λ atom, atom_features (Some atom) None) (GetAtoms mol);
  let self := MolGraph.set_f_atoms fa self in
  let self :=
    match atom_features_extra with
    | None => self
    | Some extra =>
        if overwrite_default_atom_features
        then MolGraph.set_f_atoms extra self
        else MolGraph.set_f_atoms (zip_with app (MolGraph.f_atoms self) extra) self
    end in
  let self := MolGraph.set_n_atoms (length (MolGraph.f_atoms self)) self in
  if is_not_none_and atom_features_extra
       (λ extra, bool_decide (length extra ≠ MolGraph.n_atoms self))
  then raise ValueError
  else
    let self := MolGraph.set_a2b
                  (MolGraph.a2b self ++ replicate (MolGraph.n_atoms self) []) self in
    self ← molecule_edges mol bond_features_extra
             overwrite_default_bond_features self;
    if is_not_none_and bond_features_extra
         (λ extra, bool_decide (2 * length extra ≠ MolGraph.n_bonds self))
    then raise ValueError
    else ret self.

(** [self.reaction_mode == name]. *)
Definition mode_is (mode : option string) (name : string) : bool :=
  bool_decide (mode = Some name).

(** Lines 318-325: the three ways of combining the two sides of an atom.
    With any other mode no assignment runs and [self.f_atoms] keeps its
    value. *)
Definition combine_atoms (mode : option string)
    (f_atoms_reac f_atoms_prod : list (list Q)) (self : MolGraph.t)
  : MolGraph.t :=
  let f_atoms_diff :=
    zip_with (zip_with (λ x y, x - y)%Q) f_atoms_prod f_atoms_reac in
  let tail (x y : list Q) := x ++ drop (MAX_ATOMIC_NUM + 1) y in
  if mode_is mode "reac_prod"
  then MolGraph.set_f_atoms (zip_with tail f_atoms_reac f_atoms_prod) self
  else if mode_is mode "reac_diff"
  then MolGraph.set_f_atoms (zip_with tail f_atoms_reac f_atoms_diff) self
  else if mode_is mode "prod_diff"
  then MolGraph.set_f_atoms (zip_with tail f_atoms_prod f_atoms_diff) self
  else self.

(** Lines 356-363: the same for a bond; with any other mode [f_bond] is read
    at line 364 without ever having been bound. *)
Definition combine_bonds (mode : option string)
    (f_bond_reac f_bond_prod : list Q) : result (list Q) :=
  let f_bond_diff := zip_with (λ x y, y - x)%Q f_bond_reac f_bond_prod in
  if mode_is mode "reac_prod" then ret (f_bond_reac ++ f_bond_prod)
  else if mode_is mode "reac_diff" then ret (f_bond_reac ++ f_bond_diff)
  else if mode_is mode "prod_diff" then ret (f_bond_prod ++ f_bond_diff)
  else raise UnboundLocalError.

(** Lines 336-350: the reactant-side and product-side bond of a pair. *)
Definition reaction_bonds (mol_reac mol_prod : Mol) (ri2pi : gmap nat nat)
    (pio : list nat) (n_atoms_reac a1 a2 : nat)
  : result (option (nat * Bond) * option (nat * Bond)) :=
  if bool_decide (n_atoms_reac ≤ a1 ∧ n_atoms_reac ≤ a2) then
    p1 ← getitem pio (a1 - n_atoms_reac);
    p2 ← getitem pio (a2 - n_atoms_reac);
    bond_prod ← GetBondBetweenAtoms mol_prod p1 p2;
    ret (None, bond_prod)
  else if bool_decide (a1 < n_atoms_reac ∧ n_atoms_reac ≤ a2) then
    match ri2pi !! a1 with
    | Some p1 =>
        p2 ← getitem pio (a2 - n_atoms_reac);
        bond_prod ← GetBondBetweenAtoms mol_prod p1 p2;
        ret (None, bond_prod)
    | None => ret (None, None)
    end
  else
    bond_reac ← GetBondBetweenAtoms mol_reac a1 a2;
    match ri2pi !! a1, ri2pi !! a2 with
    | Some p1, Some p2 =>
        bond_prod ← GetBondBetweenAtoms mol_prod p1 p2;
        ret (bond_reac, bond_prod)
    | _, _ => ret (bond_reac, None)
    end.

(** The loop body of lines 336-376. *)
Definition reaction_edge (mol_reac mol_prod : Mol) (ri2pi : gmap nat nat)
    (pio : list nat) (n_atoms_reac : nat) (pair : nat * nat)
    (self : MolGraph.t) : result MolGraph.t :=
  let '(a1, a2) := pair in
  bonds ← reaction_bonds mol_reac mol_prod ri2pi pio n_atoms_reac a1 a2;
  match bonds with
  | (None, None) => ret self
  | (bond_reac, bond_prod) =>
      f_bond_reac ← bond_features (snd <$> bond_reac);
      f_bond_prod ← bond_features (snd <$> bond_prod);
      f_bond ← combine_bonds (MolGraph.reaction_mode self) f_bond_reac f_bond_prod;
      self ← append_edge_features a1 a2 f_bond self;
      update_index_mappings a1 a2 self
  end.

(** Lines 334-376: the edge loop of the reaction branch. *)
Definition reaction_edges (mol_reac mol_prod : Mol) (ri2pi : gmap nat nat)
    (pio : list nat) (n_atoms_reac : nat) (self : MolGraph.t)
  : result MolGraph.t :=
  for_each (reaction_edge mol_reac mol_prod ri2pi pio n_atoms_reac)
    (atom_pairs (MolGraph.n_atoms self)) self.

(** Unpacking the value of [map_reac_to_prod] into three names. *)
Definition unpack3 {A} (v : option A) : result A :=
  match v with
  | Some x => ret x
  | None => raise TypeError
  end.

(** [ri2pi[i]] on a dict with integer keys. *)
Definition ri2pi_getitem (ri2pi : gmap nat nat) (i : nat) : result nat :=
  match ri2pi !! i with
  | Some p => ret p
  | None => raise KeyError
  end.

(** Lines 314-316: the reactant-side and the product-side feature of every
    position: the reactant's atoms in order, then the product-only atoms. *)
Definition reaction_atom_features (mol_reac mol_prod : Mol)
    (ri2pi : gmap nat nat) (pio rio : list nat)
  : result (list (list Q) * list (list Q)) :=
  reac ← comprehension (λ atom, atom_features (Some atom) None)
           (GetAtoms mol_reac);
  reac_pad ← comprehension (λ _, atom_features None None) pio;
  let f_atoms_reac := reac ++ reac_pad in
  prod ← comprehension
           (λ '(idx, _),
              if bool_decide (idx ∉ rio) then
                p ← ri2pi_getitem ri2pi idx;
                atom ← GetAtomWithIdx mol_prod p;
                atom_features (Some atom) None
              else atom_features None None)
           (enumerate (GetAtoms mol_reac));
  prod_only ← comprehension
                (λ index, atom ← GetAtomWithIdx mol_prod index;
                          atom_features (Some atom) None)
                pio;
  let f_atoms_prod := prod ++ prod_only in
  ret (f_atoms_reac, f_atoms_prod).

(** Lines 304-376: the reaction branch. *)
Definition init_reaction (mol : mol_input)
    (atom_features_extra bond_features_extra : option (list (list Q)))
    (self : MolGraph.t) : result MolGraph.t :=
  if is_not_none_and atom_features_extra (λ _, true)
  then raise NotImplementedError
  else if is_not_none_and bond_features_extra (λ _, true)
  then raise NotImplementedError
  else
    '(mol_reac, mol_prod) ← as_pair mol;
    '(ri2pi, pio, rio) ← unpack3 (map_reac_to_prod mol_reac mol_prod);
    '(f_atoms_reac, f_atoms_prod) ←
      reaction_atom_features mol_reac mol_prod ri2pi pio rio;
    let self := combine_atoms (MolGraph.reaction_mode self)
                  f_atoms_reac f_atoms_prod self in
    let self := MolGraph.set_n_atoms (length (MolGraph.f_atoms self)) self in
    let n_atoms_reac := GetNumAtoms mol_reac in
    let self := MolGraph.set_a2b
                  (MolGraph.a2b self ++ replicate (MolGraph.n_atoms self) []) self in
    reaction_edges mol_reac mol_prod ri2pi pio n_atoms_reac self.

(** Lines 234-253: the attributes as first assigned. *)
Definition new_self (G : Globals)
    (overwrite_default_atom_features overwrite_default_bond_features : bool)
  : MolGraph.t :=
  {| MolGraph.is_reaction := is_reaction G;
     MolGraph.is_explicit_h := is_explicit_h G;
     MolGraph.reaction_mode := reaction_mode G;
     MolGraph.n_atoms := 0;
     MolGraph.n_bonds := 0;
     MolGraph.f_atoms := [];
     MolGraph.f_bonds := [];
     MolGraph.a2b := [];
     MolGraph.b2a := [];
     MolGraph.b2revb := [];
     MolGraph.overwrite_default_atom_features := overwrite_default_atom_features;
     MolGraph.overwrite_default_bond_features := overwrite_default_bond_features |}.

(** [MolGraph.__init__] (lines 222-376), for a [mol] that is not a string.
    Line 255 reads the attribute [isreaction]; lines 234-253 assign
    [is_reaction]. *)
Definition MolGraph_init (G : Globals) (mol : mol_input)
    (atom_features_extra bond_features_extra : option (list (list Q)))
    (overwrite_default_atom_features overwrite_default_bond_features : bool)
  : result MolGraph.t :=
  let self := new_self G overwrite_default_atom_features
                overwrite_default_bond_features in
  isreaction ← MolGraph.getattr self "isreaction";
  if negb (truth isreaction)
  then init_molecule mol atom_features_extra bond_features_extra
         overwrite_default_atom_features overwrite_default_bond_features self
  else init_reaction mol atom_features_extra bond_features_extra self.

(** ** [BatchMolGraph] (lines 378-493) *)

(** The right operand of a list repetition [xs * k]. *)
Inductive operand : Type :=
  | IntOperand (k : nat)
  | NoneOperand
  | GeneratorOperand (element : nat → result nat) (range : list nat).

(** [xs * k]: only an integer repeats a list. *)
Definition list_mul {A} (xs : list A) (k : operand) : result (list A) :=
  match k with
  | IntOperand k => ret (concat (replicate k xs))
  | NoneOperand => raise TypeError
  | GeneratorOperand _ _ => raise TypeError
  end.

Definition operand_of (k : option nat) : operand :=
  match k with
  | Some k => IntOperand k
  | None => NoneOperand
  end.

(** [torch.FloatTensor(rows)] and [torch.LongTensor(rows)] of a list of
    lists: the rows must have one length. *)
Definition Tensor {A} (rows : list (list A)) : result (list (list A)) :=
  match rows with
  | [] => ret rows
  | r :: _ =>
      if forallb (λ r', length r' =? length r) rows then ret rows
      else raise ValueError
  end.

(** The state of the constructor while it runs: [self.n_atoms], [self.n_bonds],
    [self.a_scope], [self.b_scope] and the local lists, together with the loop
    variable [a] of line 420, which is unbound until that loop has run once. *)
Module Frame.

Record t : Type := mk {
  n_atoms : nat;
  n_bonds : nat;
  a_scope : list (nat * nat);
  b_scope : list (nat * nat);
  f_atoms : list (list Q);
  f_bonds : list (list Q);
  a2b : list (list nat);
  b2a : list nat;
  b2revb : list nat;
  a : option nat
}.

Definition set_n_atoms (v : nat) (st : t) : t :=
  mk v (n_bonds st) (a_scope st) (b_scope st) (f_atoms st) (f_bonds st)
     (a2b st) (b2a st) (b2revb st) (a st).

Definition set_n_bonds (v : nat) (st : t) : t :=
  mk (n_atoms st) v (a_scope st) (b_scope st) (f_atoms st) (f_bonds st)
     (a2b st) (b2a st) (b2revb st) (a st).

Definition set_a_scope (v : list (nat * nat)) (st : t) : t :=
  mk (n_atoms st) (n_bonds st) v (b_scope st) (f_atoms st) (f_bonds st)
     (a2b st) (b2a st) (b2revb st) (a st).

Definition set_b_scope (v : list (nat * nat)) (st : t) : t :=
  mk (n_atoms st) (n_bonds st) (a_scope st) v (f_atoms st) (f_bonds st)
     (a2b st) (b2a st) (b2revb st) (a st).

Definition set_f_atoms (v : list (list Q)) (st : t) : t :=
  mk (n_atoms st) (n_bonds st) (a_scope st) (b_scope st) v (f_bonds st)
     (a2b st) (b2a st) (b2revb st) (a st).

Definition set_f_bonds (v : list (list Q)) (st : t) : t :=
  mk (n_atoms st) (n_bonds st) (a_scope st) (b_scope st) (f_atoms st) v
     (a2b st) (b2a st) (b2revb st) (a st).

Definition set_a2b (v : list (list nat)) (st : t) : t :=
  mk (n_atoms st) (n_bonds st) (a_scope st) (b_scope st) (f_atoms st)
     (f_bonds st) v (b2a st) (b2revb st) (a st).

Definition set_b2a (v : list nat) (st : t) : t :=
  mk (n_atoms st) (n_bonds st) (a_scope st) (b_scope st) (f_atoms st)
     (f_bonds st) (a2b st) v (b2revb st) (a st).

Definition set_b2revb (v : list nat) (st : t) : t :=
  mk (n_atoms st) (n_bonds st) (a_scope st) (b_scope st) (f_atoms st)
     (f_bonds st) (a2b st) (b2a st) v (a st).

Definition set_a (v : option nat) (st : t) : t :=
  mk (n_atoms st) (n_bonds st) (a_scope st) (b_scope st) (f_atoms st)
     (f_bonds st) (a2b st) (b2a st) (b2revb st) v.

End Frame.

(** Lines 404-414: one padding row in every array. *)
Definition first_frame (atom_row bond_row : list Q) : Frame.t :=
  {| Frame.n_atoms := 1;
     Frame.n_bonds := 1;
     Frame.a_scope := [];
     Frame.b_scope := [];
     Frame.f_atoms := [atom_row];
     Frame.f_bonds := [bond_row];
     Frame.a2b := [[]];
     Frame.b2a := [0];
     Frame.b2revb := [0];
     Frame.a := None |}.

(** Line 421, one iteration. *)
Definition place_atom (mol_graph : MolGraph.t) (a : nat) (st : Frame.t)
  : result Frame.t :=
  let st := Frame.set_a (Some a) st in
  row ← getitem (MolGraph.a2b mol_graph) a;
  ret (Frame.set_a2b
         (Frame.a2b st ++ [(λ b, b + Frame.n_bonds st) <$> row]) st).

(** Lines 424-425, one iteration. *)
Definition place_bond (mol_graph : MolGraph.t) (b : nat) (st : Frame.t)
  : result Frame.t :=
  origin ← getitem (MolGraph.b2a mol_graph) b;
  let st := Frame.set_b2a (Frame.b2a st ++ [Frame.n_atoms st + origin]) st in
  rev ← getitem (MolGraph.b2revb mol_graph) b;
  ret (Frame.set_b2revb (Frame.b2revb st ++ [Frame.n_bonds st + rev]) st).

(** Lines 417-430: one molecule is placed. *)
Definition place (mol_graph : MolGraph.t) (st : Frame.t) : result Frame.t :=
  let st := Frame.set_f_atoms
              (Frame.f_atoms st ++ MolGraph.f_atoms mol_graph) st in
  let st := Frame.set_f_bonds
              (Frame.f_bonds st ++ MolGraph.f_bonds mol_graph) st in
  st ← for_each (place_atom mol_graph) (seq 0 (MolGraph.n_atoms mol_graph)) st;
  st ← for_each (place_bond mol_graph) (seq 0 (MolGraph.n_bonds mol_graph)) st;
  let st := Frame.set_a_scope
              (Frame.a_scope st
                 ++ [(Frame.n_atoms st, MolGraph.n_atoms mol_graph)]) st in
  let st := Frame.set_b_scope
              (Frame.b_scope st
                 ++ [(Frame.n_bonds st, MolGraph.n_bonds mol_graph)]) st in
  let st := Frame.set_n_atoms
              (Frame.n_atoms st + MolGraph.n_atoms mol_graph) st in
  let st := Frame.set_n_bonds
              (Frame.n_bonds st + MolGraph.n_bonds mol_graph) st in
  ret st.

(** Line 416: the loop over the molecules. *)
Definition place_all (mol_graphs : list MolGraph.t) (st : Frame.t)
  : result Frame.t :=
  for_each place mol_graphs st.

(** Lines 432-433. *)
Definition max_num_bonds_of (a2b : list (list nat)) : result nat :=
  m ← py_max (length <$> a2b);
  ret (Nat.max 1 m).

(** Line 437. The list handed to [torch.LongTensor] has one element,
    [a2b[a] + [0] * (... for a in range(self.n_atoms))]: the closing bracket
    of the subtraction stands after the [for] clause, so the right operand of
    the repetition is a generator, and the [a] of [a2b[a]] is the constructor's
    own loop variable. *)
Definition padded_a2b (max_num_bonds : nat) (st : Frame.t)
  : result (list (list nat)) :=
  a ← (match Frame.a st with
       | Some a => ret a
       | None => raise UnboundLocalError
       end);
  row ← getitem (Frame.a2b st) a;
  pad ← list_mul [0]
          (GeneratorOperand
             (λ a, row ← getitem (Frame.a2b st) a;
                   ret (max_num_bonds - length row))
             (seq 0 (Frame.n_atoms st)));
  Tensor [row ++ pad].

Module BatchMolGraph.

Record t : Type := mk {
  overwrite_default_atom_features : bool;
  overwrite_default_bond_features : bool;
  atom_fdim : nat;
  bond_fdim : option nat;
  n_atoms : nat;
  n_bonds : nat;
  a_scope : list (nat * nat);
  b_scope : list (nat * nat);
  max_num_bonds : nat;
  f_atoms : list (list Q);
  f_bonds : list (list Q);
  a2b : list (list nat);
  b2a : list nat;
  b2revb : list nat;
  b2b : option (list (list nat));
  a2a : option (list (list nat))
}.

Definition set_b2b (v : option (list (list nat))) (self : t) : t :=
  mk (overwrite_default_atom_features self)
     (overwrite_default_bond_features self) (atom_fdim self) (bond_fdim self)
     (n_atoms self) (n_bonds self) (a_scope self) (b_scope self)
     (max_num_bonds self) (f_atoms self) (f_bonds self) (a2b self)
     (b2a self) (b2revb self) v (a2a self).

Definition set_a2a (v : option (list (list nat))) (self : t) : t :=
  mk (overwrite_default_atom_features self)
     (overwrite_default_bond_features self) (atom_fdim self) (bond_fdim self)
     (n_atoms self) (n_bonds self) (a_scope self) (b_scope self)
     (max_num_bonds self) (f_atoms self) (f_bonds self) (a2b self)
     (b2a self) (b2revb self) (b2b self) v.

End BatchMolGraph.

(** Lines 432-441: the tensors are made and the object is complete. *)
Definition finish (oa ob : bool) (atom_fdim : nat) (bond_fdim : option nat)
    (st : Frame.t) : result BatchMolGraph.t :=
  max_num_bonds ← max_num_bonds_of (Frame.a2b st);
  f_atoms ← Tensor (Frame.f_atoms st);
  f_bonds ← Tensor (Frame.f_bonds st);
  a2b ← padded_a2b max_num_bonds st;
  ret {| BatchMolGraph.overwrite_default_atom_features := oa;
         BatchMolGraph.overwrite_default_bond_features := ob;
         BatchMolGraph.atom_fdim := atom_fdim;
         BatchMolGraph.bond_fdim := bond_fdim;
         BatchMolGraph.n_atoms := Frame.n_atoms st;
         BatchMolGraph.n_bonds := Frame.n_bonds st;
         BatchMolGraph.a_scope := Frame.a_scope st;
         BatchMolGraph.b_scope := Frame.b_scope st;
         BatchMolGraph.max_num_bonds := max_num_bonds;
         BatchMolGraph.f_atoms := f_atoms;
         BatchMolGraph.f_bonds := f_bonds;
         BatchMolGraph.a2b := a2b;
         BatchMolGraph.b2a := Frame.b2a st;
         BatchMolGraph.b2revb := Frame.b2revb st;
         BatchMolGraph.b2b := None;
         BatchMolGraph.a2a := None |}.

(** [BatchMolGraph.__init__] (lines 393-441). *)
Definition BatchMolGraph_init (G : Globals) (mol_graphs : list MolGraph.t)
  : result BatchMolGraph.t :=
  first ← getitem mol_graphs 0;
  let oa := MolGraph.overwrite_default_atom_features first in
  first ← getitem mol_graphs 0;
  let ob := MolGraph.overwrite_default_bond_features first in
  let atom_fdim := get_atom_fdim G oa in
  let bond_fdim := get_bond_fdim false ob oa in
  atom_row ← list_mul [0%Q] (IntOperand atom_fdim);
  bond_row ← list_mul [0%Q] (operand_of bond_fdim);
  st ← place_all mol_graphs (first_frame atom_row bond_row);
  finish oa ob atom_fdim bond_fdim st.

(** Elementwise operation on two tensors along their first dimension, with
    torch's broadcasting of a dimension of size one. *)
Definition broadcast {A B C} (f : A → B → C) (xs : list A) (ys : list B)
  : result (list C) :=
  if length xs =? length ys then ret (zip_with f xs ys)
  else match xs, ys with
       | [x], _ => ret (f x <$> ys)
       | _, [y] => ret ((λ x, f x y) <$> xs)
       | _, _ => raise RuntimeError
       end.

(** [self.a2b[self.b2a]]: the rows of a 2-D tensor selected by a 1-D index
    tensor. *)
Definition index_rows {A} (rows : list (list A)) (idx : list nat)
  : result (list (list A)) :=
  comprehension (getitem rows) idx.

(** [get_b2b] (lines 469-480): the value returned and the object with its
    cache filled. [revmask] holds 1 where the entry differs from the edge's
    reverse edge and 0 where it equals it. *)
Definition get_b2b (self : BatchMolGraph.t)
  : result (list (list nat) * BatchMolGraph.t) :=
  match BatchMolGraph.b2b self with
  | Some b2b => ret (b2b, self)
  | None =>
      b2b ← index_rows (BatchMolGraph.a2b self) (BatchMolGraph.b2a self);
      revmask ← broadcast
                  (λ row rev, (λ e, if bool_decide (e ≠ rev) then 1 else 0) <$> row)
                  b2b (BatchMolGraph.b2revb self);
      masked ← broadcast (zip_with Nat.mul) b2b revmask;
      let self := BatchMolGraph.set_b2b (Some masked) self in
      ret (masked, self)
  end.

(** [get_a2a] (lines 482-493): [self.b2a[self.a2b]]. *)
Definition get_a2a (self : BatchMolGraph.t)
  : result (list (list nat) * BatchMolGraph.t) :=
  match BatchMolGraph.a2a self with
  | Some a2a => ret (a2a, self)
  | None =>
      a2a ← comprehension (comprehension (getitem (BatchMolGraph.b2a self)))
              (BatchMolGraph.a2b self);
      let self := BatchMolGraph.set_a2a (Some a2a) self in
      ret (a2a, self)
  end.

(** ** The remaining functions of the module *)

(** [set_extra_atom_fdim] (lines 91-94). *)
Definition set_extra_atom_fdim (extra : nat) (G : Globals) : Globals :=
  {| EXTRA_ATOM_FDIM := extra; EXTRA_BOND_FDIM := EXTRA_BOND_FDIM G;
     REACTION_MODE := REACTION_MODE G; EXPLICIT_H := EXPLICIT_H G;
     REACTION := REACTION G |}.

(** [set_extra_bond_fdim] (lines 108-111). *)
Definition set_extra_bond_fdim (extra : nat) (G : Globals) : Globals :=
  {| EXTRA_ATOM_FDIM := EXTRA_ATOM_FDIM G; EXTRA_BOND_FDIM := extra;
     REACTION_MODE := REACTION_MODE G; EXPLICIT_H := EXPLICIT_H G;
     REACTION := REACTION G |}.

(** [-k] for the value [k] of [get_bond_fdim]: [None] has no negation. *)
Definition negate (k : option nat) : result Z :=
  match k with
  | Some k => ret (- Z.of_nat k)%Z
  | None => raise TypeError
  end.

(** [t[:, start:]] on a 2-D tensor; a negative [start] counts from the end
    of the row and is clamped at its beginning. *)
Definition columns_from (start : Z) (rows : list (list Q)) : list (list Q) :=
  (λ row,
     let n := Z.of_nat (length row) in
     let i := (if bool_decide (start < 0)%Z then Z.max 0 (n + start)
               else Z.min start n)%Z in
     drop (Z.to_nat i) row) <$> rows.

(** [get_components] (lines 443-467). *)
Definition get_components (self : BatchMolGraph.t) (atom_messages : bool)
  : result (list (list Q) * list (list Q) * list (list nat) * list nat
            * list nat * list (nat * nat) * list (nat * nat)) :=
  f_bonds ←
    (if atom_messages then
       start ← negate
                 (get_bond_fdim atom_messages
                    (BatchMolGraph.overwrite_default_bond_features self)
                    (BatchMolGraph.overwrite_default_atom_features self));
       ret (columns_from start (BatchMolGraph.f_bonds self))
     else ret (BatchMolGraph.f_bonds self));
  ret (BatchMolGraph.f_atoms self, f_bonds, BatchMolGraph.a2b self,
       BatchMolGraph.b2a self, BatchMolGraph.b2revb self,
       BatchMolGraph.a_scope self, BatchMolGraph.b_scope self).

(** [itertools.zip_longest] of three sequences: the tuple at every position
    up to the longest length, with [None] where a sequence has ended. *)
Definition zip_longest {A B C} (xs : list A) (ys : list B) (zs : list C)
  : list (option A * option B * option C) :=
  (λ i, (xs !! i, ys !! i, zs !! i))
    <$> seq 0 (Nat.max (Nat.max (length xs) (length ys)) (length zs)).

(** [MolGraph(mol, ...)] where [mol] may also be [None], the fill value of
    [zip_longest]: [None] has no [GetAtoms] and is not subscriptable. *)
Definition MolGraph_call (G : Globals) (mol : option mol_input)
    (atom_features_extra bond_features_extra : option (list (list Q)))
    (overwrite_default_atom_features overwrite_default_bond_features : bool)
  : result MolGraph.t :=
  match mol with
  | Some mol =>
      MolGraph_init G mol atom_features_extra bond_features_extra
        overwrite_default_atom_features overwrite_default_bond_features
  | None =>
      let self := new_self G overwrite_default_atom_features
                    overwrite_default_bond_features in
      isreaction ← MolGraph.getattr self "isreaction";
      if negb (truth isreaction) then raise AttributeError
      else if is_not_none_and atom_features_extra (λ _, true)
      then raise NotImplementedError
      else if is_not_none_and bond_features_extra (λ _, true)
      then raise NotImplementedError
      else raise TypeError
  end.

(** [mol2graph] (lines 495-514). An element of a feature batch is an array
    or [None]; the default batches are the one-element tuple [(None,)]. *)
Definition mol2graph (G : Globals) (mols : list mol_input)
    (atom_features_batch bond_features_batch : list (option (list (list Q))))
    (overwrite_default_atom_features overwrite_default_bond_features : bool)
  : result BatchMolGraph.t :=
  graphs ← comprehension
             (λ '(mol, af, bf),
                MolGraph_call G mol (mjoin af) (mjoin bf)
                  overwrite_default_atom_features
                  overwrite_default_bond_features)
             (zip_longest mols atom_features_batch bond_features_batch);
  BatchMolGraph_init G graphs.

(** ** Concrete molecules and graphs *)

Definition carbon (mapno : Z) : Atom :=
  {| GetAtomicNum := 6; GetTotalDegree := 4; GetFormalCharge := 0;
     GetChiralTag := 0; GetTotalNumHs := 3; GetHybridization := SP3;
     GetIsAromatic := false; GetMass := 12011 # 1000;
     GetAtomMapNum := mapno |}.

Definition oxygen (mapno : Z) : Atom :=
  {| GetAtomicNum := 8; GetTotalDegree := 2; GetFormalCharge := 0;
     GetChiralTag := 0; GetTotalNumHs := 1; GetHybridization := SP3;
     GetIsAromatic := false; GetMass := 15999 # 1000;
     GetAtomMapNum := mapno |}.

Definition nitrogen (mapno : Z) : Atom :=
  {| GetAtomicNum := 7; GetTotalDegree := 3; GetFormalCharge := 0;
     GetChiralTag := 0; GetTotalNumHs := 2; GetHybridization := SP3;
     GetIsAromatic := false; GetMass := 14007 # 1000;
     GetAtomMapNum := mapno |}.

Definition single_bond (a1 a2 : nat) : Bond :=
  {| GetBeginAtomIdx := a1; GetEndAtomIdx := a2; GetBondType := Some SINGLE;
     GetIsConjugated := false; IsInRing := false; GetStereo := 0 |}.

(** "C-C": two carbons and one single bond. *)
Definition ethane : Mol :=
  {| GetAtoms := [carbon 0; carbon 0]; GetBonds := [single_bond 0 1] |}.

(** A molecule without atoms. *)
Definition no_atoms : Mol := {| GetAtoms := []; GetBonds := [] |}.

(** Reactant "A-B" with A carrying map number 1 and B unmapped; product
    "A-C" with A carrying map number 1 and C unmapped. *)
Definition reactant_AB : Mol :=
  {| GetAtoms := [carbon 1; oxygen 0]; GetBonds := [single_bond 0 1] |}.

Definition product_AC : Mol :=
  {| GetAtoms := [carbon 1; nitrogen 0]; GetBonds := [single_bond 0 1] |}.

Definition reaction_globals : Globals :=
  set_reaction true "reac_diff" initial_globals.

(** The constructor's state on entry to an edge loop, with the atom feature
    rows [fa] in place. *)
Definition at_edge_loop (G : Globals) (fa : list (list Q)) (oa ob : bool)
  : MolGraph.t :=
  let self := MolGraph.set_f_atoms fa (new_self G oa ob) in
  let self := MolGraph.set_n_atoms (length (MolGraph.f_atoms self)) self in
  MolGraph.set_a2b
    (MolGraph.a2b self ++ replicate (MolGraph.n_atoms self) []) self.

(** The graph of "C-C" as a [MolGraph] object holds it, with one-entry atom
    rows; the two flags are the object's overwrite attributes. An edge row is
    the origin's atom row followed by the features of a single bond. *)
Definition ethane_graph (oa ob : bool) : MolGraph.t :=
  {| MolGraph.is_reaction := false;
     MolGraph.is_explicit_h := false;
     MolGraph.reaction_mode := None;
     MolGraph.n_atoms := 2;
     MolGraph.n_bonds := 2;
     MolGraph.f_atoms := [[1%Q]; [1%Q]];
     MolGraph.f_bonds :=
       [ [1; 0; 1; 0; 0; 0; 0; 0; 1; 0; 0; 0; 0; 0; 0]%Q;
         [1; 0; 1; 0; 0; 0; 0; 0; 1; 0; 0; 0; 0; 0; 0]%Q ];
     MolGraph.a2b := [[1]; [0]];
     MolGraph.b2a := [0; 1];
     MolGraph.b2revb := [1; 0];
     MolGraph.overwrite_default_atom_features := oa;
     MolGraph.overwrite_default_bond_features := ob |}.

(** The graph of a one-atom molecule. *)
Definition lone_atom_graph : MolGraph.t :=
  {| MolGraph.is_reaction := false;
     MolGraph.is_explicit_h := false;
     MolGraph.reaction_mode := None;
     MolGraph.n_atoms := 1;
     MolGraph.n_bonds := 0;
     MolGraph.f_atoms := [[1%Q]];
     MolGraph.f_bonds := [];
     MolGraph.a2b := [[]];
     MolGraph.b2a := [];
     MolGraph.b2revb := [];
     MolGraph.overwrite_default_atom_features := false;
     MolGraph.overwrite_default_bond_features := false |}.

(** ** Predicates used in the statements *)

(** Two graphs hold the same graph data when they differ at most in the
    attributes that record the configuration they were built under. *)
Definition same_graph_data (g g' : MolGraph.t) : Prop :=
  MolGraph.n_atoms g = MolGraph.n_atoms g'
  ∧ MolGraph.n_bonds g = MolGraph.n_bonds g'
  ∧ MolGraph.f_atoms g = MolGraph.f_atoms g'
  ∧ MolGraph.f_bonds g = MolGraph.f_bonds g'
  ∧ MolGraph.a2b g = MolGraph.a2b g'
  ∧ MolGraph.b2a g = MolGraph.b2a g'
  ∧ MolGraph.b2revb g = MolGraph.b2revb g'.

(** No edge has been added yet: the state in which the constructor enters
    an edge loop. *)
Definition no_edges (self : MolGraph.t) : Prop :=
  MolGraph.n_bonds self = 0 ∧ MolGraph.b2a self = [] ∧ MolGraph.b2revb self = [].

(** The graphs the builder's code can produce: the result of either edge
    loop, of either branch, or of the constructor. *)
Inductive built (g : MolGraph.t) : Prop :=
  | built_molecule_edges self mol bfe ob :
      no_edges self → molecule_edges mol bfe ob self = inr g → built g
  | built_reaction_edges self mol_reac mol_prod ri2pi pio n_atoms_reac :
      no_edges self →
      reaction_edges mol_reac mol_prod ri2pi pio n_atoms_reac self = inr g →
      built g
  | built_init_molecule self mol afe bfe oa ob :
      no_edges self → init_molecule mol afe bfe oa ob self = inr g → built g
  | built_init_reaction self mol afe bfe :
      no_edges self → init_reaction mol afe bfe self = inr g → built g
  | built_MolGraph_init G mol afe bfe oa ob :
      MolGraph_init G mol afe bfe oa ob = inr g → built g.

(** Every edge has a reverse edge that points back at it and starts at
    another atom. *)
Definition reverse_paired (g : MolGraph.t) : Prop :=
  ∀ b, b < MolGraph.n_bonds g →
    ∃ r x y, MolGraph.b2revb g !! b = Some r
             ∧ MolGraph.b2revb g !! r = Some b
             ∧ MolGraph.b2a g !! b = Some x
             ∧ MolGraph.b2a g !! r = Some y
             ∧ x ≠ y.

(** The index mappings are well paired when their lengths are the edge count
    and every edge is reverse paired. *)
Definition paired (g : MolGraph.t) : Prop :=
  length (MolGraph.b2a g) = MolGraph.n_bonds g
  ∧ length (MolGraph.b2revb g) = MolGraph.n_bonds g
  ∧ reverse_paired g.

(** A graph object whose mappings are long enough for its counts, which is
    what the collator's index expressions need. *)
Definition wf_graph (g : MolGraph.t) : Prop :=
  MolGraph.n_atoms g ≤ length (MolGraph.a2b g)
  ∧ MolGraph.n_bonds g ≤ length (MolGraph.b2a g)
  ∧ MolGraph.n_bonds g ≤ length (MolGraph.b2revb g).

(** The totals of atoms and of edges placed before a molecule, the padding
    row included. *)
Definition atoms_before (pre : list MolGraph.t) : nat :=
  1 + sum_list (MolGraph.n_atoms <$> pre).

Definition edges_before (pre : list MolGraph.t) : nat :=
  1 + sum_list (MolGraph.n_bonds <$> pre).

(** The collator's arrays are as long as its running counts. *)
Definition frame_ok (st : Frame.t) : Prop :=
  length (Frame.a2b st) = Frame.n_atoms st
  ∧ length (Frame.b2a st) = Frame.n_bonds st
  ∧ length (Frame.b2revb st) = Frame.n_bonds st.

(** What placing one molecule adds to the collator's state. *)
Definition placed_after (g : MolGraph.t) (st st' : Frame.t) : Prop :=
  Frame.n_atoms st' = Frame.n_atoms st + MolGraph.n_atoms g
  ∧ Frame.n_bonds st' = Frame.n_bonds st + MolGraph.n_bonds g
  ∧ Frame.a2b st'
    = Frame.a2b st
        ++ (fmap (M:=list) (λ b, b + Frame.n_bonds st)
              <$> take (MolGraph.n_atoms g) (MolGraph.a2b g))
  ∧ Frame.b2a st'
    = Frame.b2a st
        ++ ((λ x, Frame.n_atoms st + x)
              <$> take (MolGraph.n_bonds g) (MolGraph.b2a g))
  ∧ Frame.b2revb st'
    = Frame.b2revb st
        ++ ((λ r, Frame.n_bonds st + r)
              <$> take (MolGraph.n_bonds g) (MolGraph.b2revb g))
  ∧ Frame.a_scope st'
    = Frame.a_scope st ++ [(Frame.n_atoms st, MolGraph.n_atoms g)]
  ∧ Frame.b_scope st'
    = Frame.b_scope st ++ [(Frame.n_bonds st, MolGraph.n_bonds g)]
  ∧ Frame.f_atoms st' = Frame.f_atoms st ++ MolGraph.f_atoms g
  ∧ Frame.f_bonds st' = Frame.f_bonds st ++ MolGraph.f_bonds g.

(** Placing further molecules only appends. *)
Definition extends (st st' : Frame.t) : Prop :=
  Frame.a2b st `prefix_of` Frame.a2b st'
  ∧ Frame.b2a st `prefix_of` Frame.b2a st'
  ∧ Frame.b2revb st `prefix_of` Frame.b2revb st'
  ∧ Frame.a_scope st `prefix_of` Frame.a_scope st'
  ∧ Frame.b_scope st `prefix_of` Frame.b_scope st'
  ∧ Frame.f_atoms st `prefix_of` Frame.f_atoms st'
  ∧ Frame.f_bonds st `prefix_of` Frame.f_bonds st'.

(** A row with every entry equal to [rev] replaced by 0. *)
Definition mask_reverse (rev : nat) (row : list nat) : list nat :=
  (λ e, if bool_decide (e = rev) then 0 else e) <$> row.

(** The batch of "C-C-C" alone, as the collator's loop and a correct padding
    would leave it: atoms 1-3 and edges 1-4 follow the padding row, and the
    incoming-edge rows are padded to width 2. *)
Definition propane_batch : BatchMolGraph.t :=
  {| BatchMolGraph.overwrite_default_atom_features := false;
     BatchMolGraph.overwrite_default_bond_features := false;
     BatchMolGraph.atom_fdim := 1;
     BatchMolGraph.bond_fdim := None;
     BatchMolGraph.n_atoms := 4;
     BatchMolGraph.n_bonds := 5;
     BatchMolGraph.a_scope := [(1, 3)];
     BatchMolGraph.b_scope := [(1, 4)];
     BatchMolGraph.max_num_bonds := 2;
     BatchMolGraph.f_atoms := [[0%Q]; [1%Q]; [1%Q]; [1%Q]];
     BatchMolGraph.f_bonds := [[0%Q]; [1%Q]; [1%Q]; [1%Q]; [1%Q]];
     BatchMolGraph.a2b := [[0; 0]; [2; 0]; [1; 4]; [3; 0]];
     BatchMolGraph.b2a := [0; 1; 2; 2; 3];
     BatchMolGraph.b2revb := [0; 2; 1; 4; 3];
     BatchMolGraph.b2b := None;
     BatchMolGraph.a2a := None |}.

(** The collator's state after placing "C-C" alone. *)
Definition ethane_frame : Frame.t :=
  {| Frame.n_atoms := 3;
     Frame.n_bonds := 3;
     Frame.a_scope := [(1, 2)];
     Frame.b_scope := [(1, 2)];
     Frame.f_atoms := [[0%Q]; [1%Q]; [1%Q]];
     Frame.f_bonds := [0%Q] :: MolGraph.f_bonds (ethane_graph false false);
     Frame.a2b := [[]; [2]; [1]];
     Frame.b2a := [0; 1; 2];
     Frame.b2revb := [0; 2; 1];
     Frame.a := Some 1 |}.

(** One of the three modes that lines 318-325 and 356-363 know. *)
Definition known_mode (mode : string) : Prop :=
  mode = "reac_prod" ∨ mode = "reac_diff" ∨ mode = "prod_diff".

(** The product atoms that line 187-192 put in [only_prod_ids]: those
    without a positive map number and those whose map number no reactant
    atom carries. *)
Definition product_only (mol_reac : Mol) (ia : nat * Atom) : Prop :=
  ¬ (0 < GetAtomMapNum ia.2)%Z
  ∨ GetAtomMapNum ia.2
      ∉ (list_to_set (GetAtomMapNum <$> GetAtoms mol_reac) : gset Z).

#[global] Instance product_only_dec mol_reac ia :
  Decision (product_only mol_reac ia).
Proof. unfold product_only. apply _. Defined.

(** The destination of edge [b]: the origin of its reverse edge. *)
Definition destination (g : MolGraph.t) (b : nat) : option nat :=
  MolGraph.b2revb g !! b ≫= λ r, MolGraph.b2a g !! r.

(** Every row of [a2b] lists the edges with that destination, each once, in
    increasing order. *)
Definition incoming_ok (g : MolGraph.t) : Prop :=
  ∀ a row, MolGraph.a2b g !! a = Some row →
    row = filter (λ b, destination g b = Some a) (seq 0 (MolGraph.n_bonds g)).

(** The feature row of an edge is its origin's atom row followed by a bond
    vector, and the two directions of a bond carry the same bond vector. *)
Definition edge_rows_ok (g : MolGraph.t) : Prop :=
  length (MolGraph.f_bonds g) = MolGraph.n_bonds g
  ∧ ∀ b r x y,
      MolGraph.b2revb g !! b = Some r →
      MolGraph.b2a g !! b = Some x →
      MolGraph.b2a g !! r = Some y →
      ∃ fx fy f_bond,
        MolGraph.f_atoms g !! x = Some fx
        ∧ MolGraph.f_atoms g !! y = Some fy
        ∧ MolGraph.f_bonds g !! b = Some (fx ++ f_bond)
        ∧ MolGraph.f_bonds g !! r = Some (fy ++ f_bond).

(** The constructor's state on entry to an edge loop: no edge, no edge row,
    and an empty incoming-edge list for each atom. *)
Definition fresh (self : MolGraph.t) : Prop :=
  no_edges self
  ∧ MolGraph.f_bonds self = []
  ∧ MolGraph.a2b self = replicate (MolGraph.n_atoms self) [].

(** The pair [(a1, a2)] has a bond in the molecule. *)
Definition bonded (mol : Mol) (p : nat * nat) : Prop :=
  is_Some (list_find (λ b, joins p.1 p.2 b = true) (GetBonds mol)).

#[global] Instance bonded_dec mol p : Decision (bonded mol p).
Proof. unfold bonded. apply _. Defined.

(** The end points of a bond, smaller index first. *)
Definition ends (b : Bond) : nat * nat :=
  (Nat.min (GetBeginAtomIdx b) (GetEndAtomIdx b),
   Nat.max (GetBeginAtomIdx b) (GetEndAtomIdx b)).

(** A molecule as RDKit holds it: every bond joins two different atoms of
    the molecule, and no two bonds join the same pair. *)
Definition wf_mol (mol : Mol) : Prop :=
  Forall (λ b, GetBeginAtomIdx b ≠ GetEndAtomIdx b
               ∧ GetBeginAtomIdx b < GetNumAtoms mol
               ∧ GetEndAtomIdx b < GetNumAtoms mol) (GetBonds mol)
  ∧ NoDup (ends <$> GetBonds mol).

(** One pair contributes an edge pair: its rows are appended, then its
    indices. *)
Definition edge_added (a1 a2 : nat) (self g : MolGraph.t) : Prop :=
  ∃ f_bond s,
    append_edge_features a1 a2 f_bond self = inr s
    ∧ update_index_mappings a1 a2 s = inr g.

(** What the loops keep: the pairing of reverse edges, the incoming-edge
    lists, the edge rows, and the atoms as they were on entry. *)
Definition edges_ok (g : MolGraph.t) : Prop :=
  paired g ∧ incoming_ok g ∧ edge_rows_ok g.

(** A run of either edge loop. *)
Inductive edge_loop (self g : MolGraph.t) : Prop :=
  | loop_molecule mol bfe ob :
      molecule_edges mol bfe ob self = inr g → edge_loop self g
  | loop_reaction mol_reac mol_prod ri2pi pio n_atoms_reac :
      reaction_edges mol_reac mol_prod ri2pi pio n_atoms_reac self = inr g →
      edge_loop self g.

(** What the molecule loop needs of the state it runs on. *)
Definition covers (N : nat) (s : MolGraph.t) : Prop :=
  MolGraph.n_atoms s = N
  ∧ N ≤ length (MolGraph.f_atoms s)
  ∧ N ≤ length (MolGraph.a2b s).

(** A graph has one feature row per atom and per edge. *)
Definition rows_match (g : MolGraph.t) : Prop :=
  length (MolGraph.f_atoms g) = MolGraph.n_atoms g
  ∧ length (MolGraph.f_bonds g) = MolGraph.n_bonds g.

(** Every edge of the collator's state after the padding edge is reverse
    paired inside the batch. *)
Definition batch_paired (st : Frame.t) : Prop :=
  ∀ e, 1 ≤ e < Frame.n_bonds st →
    ∃ r x y, Frame.b2revb st !! e = Some r
             ∧ Frame.b2revb st !! r = Some e
             ∧ Frame.b2a st !! e = Some x
             ∧ Frame.b2a st !! r = Some y
             ∧ x ≠ y ∧ 1 ≤ r.

(** The destination of batch edge [e]: the origin of its reverse edge. *)
Definition batch_destination (st : Frame.t) (e : nat) : option nat :=
  Frame.b2revb st !! e ≫= λ r, Frame.b2a st !! r.

(** A graph as an edge loop leaves it when the constructor enters the loop
    without edges. *)
Definition loop_built (g : MolGraph.t) : Prop :=
  ∃ self, fresh self ∧ edge_loop self g.

(** What the collator relies on in a graph, beyond [wf_graph]. *)
Definition graph_ok (g : MolGraph.t) : Prop :=
  paired g ∧ incoming_ok g
  ∧ length (MolGraph.a2b g) = MolGraph.n_atoms g
  ∧ Forall (λ x, x < MolGraph.n_atoms g) (MolGraph.b2a g).

(** The collator's state: every index points inside the batch and every
    incoming-edge list is the list of the edges with that destination. *)
Definition batch_ok (st : Frame.t) : Prop :=
  frame_ok st
  ∧ 1 ≤ Frame.n_bonds st
  ∧ (∀ e r, Frame.b2revb st !! e = Some r → r < Frame.n_bonds st)
  ∧ (∀ e x, Frame.b2a st !! e = Some x → x < Frame.n_atoms st)
  ∧ ∀ A row, Frame.a2b st !! A = Some row →
      row = filter (λ e, batch_destination st e = Some A)
              (seq 1 (Frame.n_bonds st - 1)).

(** * Properties *)

(** ** The error monad *)

Lemma bind_inr {A B} (c : result A) (k : A → result B) (y : B) :
  c ≫= k = inr y → ∃ x, c = inr x ∧ k x = inr y.
Proof. destruct c as [e|x]; simpl; [discriminate | eauto]. Qed.

Lemma for_each_app {A S} (body : A → S → result S) (xs ys : list A) (st : S) :
  for_each body (xs ++ ys) st = for_each body xs st ≫= for_each body ys.
Proof.
  revert st. induction xs as [|x xs IH]; intros st; simpl; [done|].
  destruct (body x st) as [e|st']; simpl; [done | apply IH].
Qed.

(** An invariant of the loop body that holds before a loop holds after it. *)
Lemma for_each_invariant {A S} (P : S → Prop) (Q : A → Prop)
    (body : A → S → result S) (xs : list A) (st st' : S) :
  (∀ x s s', Q x → P s → body x s = inr s' → P s') →
  Forall Q xs → P st → for_each body xs st = inr st' → P st'.
Proof.
  intros Hbody HQ. revert st.
  induction HQ as [|x xs Hx _ IH]; intros st HP Hrun; simpl in Hrun.
  - by injection Hrun as <-.
  - apply bind_inr in Hrun as (s & Hs & Hrest). eauto.
Qed.

(** ** Feature encoders *)

Lemma ATOM_FDIM_value : ATOM_FDIM = 133.
Proof. vm_compute. reflexivity. Qed.

Lemma list_index_found (l : list Z) (v : Z) :
  v ∈ l → ∃ i, list_index l v = inr (Z.of_nat i) ∧ i < length l ∧ l !! i = Some v.
Proof.
  intros Hin. unfold list_index.
  destruct (list_find (λ x, x = v) l) as [[i x]|] eqn:Hfind.
  - apply list_find_Some in Hfind as (Hi & -> & _).
    exists i. split; [done|]. split; [by eapply lookup_lt_Some | done].
  - apply list_find_None in Hfind.
    rewrite Forall_forall in Hfind. by destruct (Hfind v Hin).
Qed.

Lemma setitem_nat {A} (l : list A) (i : nat) (v : A) :
  i < length l → setitem l (Z.of_nat i) v = inr (<[i := v]> l).
Proof.
  intros Hlt. unfold setitem.
  rewrite (bool_decide_eq_false_2 (Z.of_nat i < 0)%Z) by lia.
  rewrite bool_decide_eq_true_2 by lia.
  by rewrite Nat2Z.id.
Qed.

Lemma setitem_last {A} (l : list A) (v : A) :
  0 < length l → setitem l (-1) v = inr (<[length l - 1 := v]> l).
Proof.
  intros Hlt. unfold setitem.
  rewrite (bool_decide_eq_true_2 (-1 < 0)%Z) by lia.
  rewrite bool_decide_eq_true_2 by lia.
  by replace (Z.to_nat (-1 + Z.of_nat (length l))) with (length l - 1) by lia.
Qed.

(** [onek_encoding_unk] never raises: it returns a vector of length
    [len(choices) + 1] whose only non-zero entry is at the position of
    [value] in [choices], or the last one when [value] is not a choice. *)
Lemma onek_encoding_unk_total (value : Z) (choices : list Z) :
  ∃ k, k ≤ length choices
       ∧ onek_encoding_unk value choices
         = inr (<[k := 1%Q]> (replicate (length choices + 1) 0%Q))
       ∧ (value ∈ choices → choices !! k = Some value)
       ∧ (value ∉ choices → k = length choices).
Proof.
  unfold onek_encoding_unk. case_bool_decide as Hin.
  - destruct (list_index_found _ _ Hin) as (i & -> & Hlt & Hi).
    exists i. simpl. rewrite setitem_nat by (rewrite length_replicate; lia).
    split; [lia|]. split; [done|]. split; [done|].
    intros Hn. by destruct Hn.
  - exists (length choices). simpl.
    rewrite setitem_last by (rewrite length_replicate; lia).
    rewrite length_replicate.
    replace (length choices + 1 - 1) with (length choices) by lia.
    split; [lia|]. split; [done|]. split; [by intros ?|done].
Qed.

Lemma onek_encoding_unk_returns (value : Z) (choices : list Z) :
  ∃ e, onek_encoding_unk value choices = inr e ∧ length e = length choices + 1.
Proof.
  destruct (onek_encoding_unk_total value choices) as (k & _ & -> & _).
  eexists. split; [done|]. by rewrite length_insert, length_replicate.
Qed.

(** [bond_features] is total and its vectors have [BOND_FDIM] entries. *)
Lemma bond_features_total (bond : option Bond) :
  ∃ v, bond_features bond = inr v ∧ length v = BOND_FDIM.
Proof.
  destruct bond as [bond|]; simpl.
  - destruct (onek_encoding_unk_returns (GetStereo bond) (seqZ 0 6))
      as (e & -> & Hlen).
    simpl. eexists. split; [done|]. simpl. rewrite Hlen. done.
  - eexists. split; [done|]. done.
Qed.

(** The null atom is the all-zero vector of length [ATOM_FDIM]. *)
Lemma atom_features_null (fg : option (list Q)) :
  atom_features None fg = inr (replicate ATOM_FDIM 0%Q).
Proof. done. Qed.

Lemma ATOM_FEATURES_lookup :
  dict_getitem ATOM_FEATURES "atomic_num" = inr (seqZ 0 100)
  ∧ dict_getitem ATOM_FEATURES "degree" = inr [0; 1; 2; 3; 4; 5]%Z
  ∧ dict_getitem ATOM_FEATURES "formal_charge" = inr [-1; -2; 1; 2; 0]%Z
  ∧ dict_getitem ATOM_FEATURES "chiral_tag" = inr [0; 1; 2; 3]%Z
  ∧ dict_getitem ATOM_FEATURES "num_Hs" = inr [0; 1; 2; 3; 4]%Z
  ∧ dict_getitem ATOM_FEATURES "num_hs" = inl KeyError.
Proof. vm_compute. done. Qed.

(** C1. [atom_features] is not total: for every atom that is not [None] it
    raises [KeyError], because it looks up the key ["num_hs"] in
    [ATOM_FEATURES], whose key is ["num_Hs"]; the four encodings before the
    lookup succeed. *)
Theorem atom_features_raises_KeyError (atom : Atom) (fg : option (list Q)) :
  ATOM_FEATURES !! "num_hs" = None
  ∧ is_Some (ATOM_FEATURES !! "num_Hs")
  ∧ atom_features (Some atom) fg = inl KeyError
  ∧ atom_features (Some (carbon 0)) None = inl KeyError.
Proof.
  assert (Hall : ∀ a g, atom_features (Some a) g = inl KeyError).
  { intros a g. unfold atom_features.
    destruct ATOM_FEATURES_lookup as (-> & -> & -> & -> & _ & ->).
    simpl.
    destruct (onek_encoding_unk_returns (GetAtomicNum a - 1) (seqZ 0 100))
      as (e1 & -> & _).
    simpl.
    destruct (onek_encoding_unk_returns (GetTotalDegree a) [0; 1; 2; 3; 4; 5]%Z)
      as (e2 & -> & _).
    simpl.
    destruct (onek_encoding_unk_returns (GetFormalCharge a) [-1; -2; 1; 2; 0]%Z)
      as (e3 & -> & _).
    simpl.
    destruct (onek_encoding_unk_returns (GetChiralTag a) [0; 1; 2; 3]%Z)
      as (e4 & -> & _).
    done. }
  split; [done|]. split; [by eexists|]. split; apply Hall.
Qed.

(** ** [map_reac_to_prod] *)


(** C5. On the spec's own example (reactant A-B with B unmapped, product A-C)
    [map_reac_to_prod] returns after the reactant's first atom: the mapped
    atom A (index 0) is put in the reactant-only list although it is also in
    the dictionary, and the unmapped atom B (index 1) is in neither. The
    reaction branch then raises [KeyError] and the constructor
    [AttributeError], so no three-atom graph is built. *)
Theorem map_reac_to_prod_on_example :
  map_reac_to_prod reactant_AB product_AC = Some ({[0 := 0]}, [1], [0])
  ∧ init_reaction (MolPair reactant_AB product_AC) None None
      (new_self reaction_globals false false) = inl KeyError
  ∧ MolGraph_init reaction_globals (MolPair reactant_AB product_AC)
      None None false false = inl AttributeError.
Proof. vm_compute. done. Qed.

(** ** [MolGraph.__init__] *)

(** X4. No attribute [isreaction] is ever assigned, so line 255 raises for
    every argument list and every setting of the globals. *)
Lemma MolGraph_init_raises (G : Globals) (mol : mol_input)
    (afe bfe : option (list (list Q))) (oa ob : bool) :
  MolGraph_init G mol afe bfe oa ob = inl AttributeError.
Proof. reflexivity. Qed.

(** The reaction branch on its own rejects extra features at once. *)
Lemma init_reaction_rejects_extras (mol : mol_input)
    (afe bfe : option (list (list Q))) (self : MolGraph.t) :
  is_Some afe ∨ is_Some bfe →
  init_reaction mol afe bfe self = inl NotImplementedError.
Proof.
  intros [[x ->]|[x ->]]; unfold init_reaction; simpl; [done|].
  by destruct afe.
Qed.

(** C7. In reaction mode with extra atom features (and likewise extra bond
    features) the constructor raises [AttributeError] at line 255, which is
    no configuration error; the [NotImplementedError] of lines 304-307 is
    what the reaction branch alone would raise. *)
Theorem reaction_extras_raise_AttributeError :
  is_reaction reaction_globals = true
  ∧ MolGraph_init reaction_globals (MolPair reactant_AB product_AC)
      (Some [[1%Q]; [1%Q]]) None false false = inl AttributeError
  ∧ MolGraph_init reaction_globals (MolPair reactant_AB product_AC)
      None (Some [[1%Q]]) false false = inl AttributeError
  ∧ is_configuration_error AttributeError = false
  ∧ init_reaction (MolPair reactant_AB product_AC) (Some [[1%Q]; [1%Q]]) None
      (new_self reaction_globals false false) = inl NotImplementedError.
Proof. vm_compute. done. Qed.

(** C9. Outside reaction mode, one extra atom row for the two atoms of "C-C"
    makes the constructor raise [AttributeError] at line 255, which is no
    data-integrity error. The molecule branch alone does not supply the
    [ValueError] either: on "C-C" it raises [KeyError] at line 257, and with
    the overwrite policy the length test of line 265 compares the extra array
    with itself, so one extra row for a molecule without atoms is accepted as
    a one-atom graph. In the edge loop an extra bond array that is too short
    is indexed at line 282 before line 300 can test its length, which raises
    [IndexError]. *)
Theorem extras_mismatch_raises_AttributeError :
  is_reaction initial_globals = false
  ∧ MolGraph_init initial_globals (OneMol ethane) (Some [[1%Q]]) None
      false false = inl AttributeError
  ∧ is_data_integrity_error AttributeError = false
  ∧ init_molecule (OneMol ethane) (Some [[1%Q]]) None false false
      (new_self initial_globals false false) = inl KeyError
  ∧ MolGraph.n_atoms
      <$> init_molecule (OneMol no_atoms) (Some [[1%Q]]) None true false
            (new_self initial_globals true false) = inr 1
  ∧ molecule_edges ethane (Some []) false
      (at_edge_loop initial_globals [[1%Q]; [1%Q]] false false)
    = inl IndexError.
Proof. vm_compute. done. Qed.

(** ** [BatchMolGraph.__init__] *)

(** C10. For the empty list of graphs the constructor raises [IndexError]
    when it reads [mol_graphs[0]]; no sentinel-only batch is returned. *)
Theorem BatchMolGraph_init_empty (G : Globals) :
  BatchMolGraph_init G [] = inl IndexError.
Proof. reflexivity. Qed.

(** X5. For a list with a first graph the constructor raises [TypeError]
    when line 411 repeats [[0]] by the value of [get_bond_fdim], which is
    [None]. *)
Lemma BatchMolGraph_init_nonempty (G : Globals) (g : MolGraph.t)
    (gs : list MolGraph.t) :
  BatchMolGraph_init G (g :: gs) = inl TypeError.
Proof. reflexivity. Qed.

Lemma foldl_max_max_list (x : nat) (xs : list nat) :
  foldl Nat.max x xs = Nat.max x (max_list xs).
Proof.
  revert x. induction xs as [|y ys IH]; intros x; simpl; [lia|].
  rewrite IH. lia.
Qed.

(** Lines 432-433 compute the largest incoming-edge-list length, with a
    floor of 1; the list of rows is never empty, since it starts with the
    padding row. *)
Lemma max_num_bonds_of_spec (a2b : list (list nat)) :
  a2b ≠ [] →
  max_num_bonds_of a2b = inr (Nat.max 1 (max_list (length <$> a2b))).
Proof.
  intros Hne. unfold max_num_bonds_of.
  destruct a2b as [|row rows]; [done|]. simpl.
  by rewrite foldl_max_max_list.
Qed.

Lemma padded_a2b_raises (m : nat) (st : Frame.t) :
  ∃ e, padded_a2b m st = inl e.
Proof.
  unfold padded_a2b.
  destruct (Frame.a st) as [a|]; simpl; [|by eexists].
  destruct (getitem (Frame.a2b st) a) as [e|row]; simpl; by eexists.
Qed.

(** C4. Line 437 never builds the rectangular array. For every state of the
    constructor the statement raises (the repetition [[0] * generator] is a
    [TypeError]; with no atom placed the loop variable [a] is unbound), and so
    do lines 432-441 as a whole. With "C-C" placed, [max_num_bonds] is
    computed as 1 and the padding raises [TypeError]. *)
Theorem padding_always_raises :
  (∀ m st, ∃ e, padded_a2b m st = inl e)
  ∧ (∀ oa ob d1 d2 st, ∃ e, finish oa ob d1 d2 st = inl e)
  ∧ (place_all [ethane_graph false false] (first_frame [0%Q] [0%Q])
       ≫= λ st, max_num_bonds_of (Frame.a2b st)) = inr 1
  ∧ (place_all [ethane_graph false false] (first_frame [0%Q] [0%Q])
       ≫= padded_a2b 1) = inl TypeError
  ∧ (place_all [] (first_frame [0%Q] [0%Q]) ≫= padded_a2b 1)
    = inl UnboundLocalError.
Proof.
  split; [apply padded_a2b_raises|].
  split; [|by vm_compute].
  intros oa ob d1 d2 st. unfold finish.
  destruct (max_num_bonds_of (Frame.a2b st)) as [e|m]; simpl; [by eexists|].
  destruct (Tensor (Frame.f_atoms st)) as [e|fa]; simpl; [by eexists|].
  destruct (Tensor (Frame.f_bonds st)) as [e|fb]; simpl; [by eexists|].
  destruct (padded_a2b_raises m st) as [e ->]. by eexists.
Qed.

Lemma place_same_graph_data (g g' : MolGraph.t) (st : Frame.t) :
  same_graph_data g g' → place g st = place g' st.
Proof.
  destruct g, g'. unfold same_graph_data. simpl.
  intros (-> & -> & -> & -> & -> & -> & ->). reflexivity.
Qed.

Lemma place_all_same_graph_data (gs gs' : list MolGraph.t) (st : Frame.t) :
  Forall2 same_graph_data gs gs' → place_all gs st = place_all gs' st.
Proof.
  intros Hsame. revert st.
  induction Hsame as [|g g' gs gs' Hg _ IH]; intros st; [done|].
  unfold place_all in *. simpl.
  rewrite (place_same_graph_data g g' st Hg).
  destruct (place g' st) as [e|st']; simpl; [done | apply IH].
Qed.

(** C6, as amended. The collator compares no two graphs: the overwrite flags
    are read from the first graph alone, and neither the outcome of the
    constructor nor the placement of the molecules depends on the
    configuration attributes of the graphs that follow it. *)
Theorem batch_reads_first_graph_only (G : Globals) (g : MolGraph.t)
    (gs gs' : list MolGraph.t) :
  Forall2 same_graph_data gs gs' →
  BatchMolGraph_init G (g :: gs) = BatchMolGraph_init G (g :: gs')
  ∧ ∀ st, place_all (g :: gs) st = place_all (g :: gs') st.
Proof.
  intros Hsame. split.
  - reflexivity.
  - intros st. apply place_all_same_graph_data.
    constructor; [by repeat split | done].
Qed.

Lemma batch_reads_first_graph_only_witness :
  BatchMolGraph_init initial_globals
    [ethane_graph false false; ethane_graph true true]
  = BatchMolGraph_init initial_globals
      [ethane_graph false false; ethane_graph false false]
  ∧ ∀ st,
      place_all [ethane_graph false false; ethane_graph true true] st
      = place_all [ethane_graph false false; ethane_graph false false] st.
Proof.
  apply (batch_reads_first_graph_only initial_globals
           (ethane_graph false false)
           [ethane_graph true true] [ethane_graph false false]).
  constructor; [by repeat split | constructor].
Defined.

(** C6, as stated, fails: a batch whose two graphs carry different overwrite
    flags is not rejected with a configuration error, and the placement loop
    accepts both graphs. *)
Lemma mixed_batch_not_rejected :
  MolGraph.overwrite_default_atom_features (ethane_graph false false)
    ≠ MolGraph.overwrite_default_atom_features (ethane_graph true true)
  ∧ raises is_configuration_error
      (BatchMolGraph_init initial_globals
         [ethane_graph false false; ethane_graph true true]) = false
  ∧ Frame.a_scope
      <$> place_all [ethane_graph false false; ethane_graph true true]
            (first_frame [0%Q] [0%Q])
    = inr [(1, 2); (3, 2)].
Proof. vm_compute. done. Qed.

(** ** The edge loops of [MolGraph.__init__] *)

Lemma atom_pairs_ordered (n : nat) :
  Forall (λ p : nat * nat, p.1 < p.2 < n) (atom_pairs n).
Proof.
  apply Forall_forall. intros [a1 a2] Hin.
  apply list_elem_of_In, in_flat_map in Hin as (a & Ha & Hin).
  apply list_elem_of_In, list_elem_of_fmap in Hin as (a' & [= -> ->] & Ha').
  apply elem_of_seq in Ha'. apply in_seq in Ha. simpl. lia.
Qed.

(** What one run of lines 291-299 leaves behind. *)
Lemma update_index_mappings_inr (a1 a2 : nat) (self g : MolGraph.t) :
  update_index_mappings a1 a2 self = inr g →
  MolGraph.n_bonds g = MolGraph.n_bonds self + 2
  ∧ MolGraph.b2a g = MolGraph.b2a self ++ [a1; a2]
  ∧ MolGraph.b2revb g
    = MolGraph.b2revb self ++ [MolGraph.n_bonds self + 1; MolGraph.n_bonds self]
  ∧ MolGraph.n_atoms g = MolGraph.n_atoms self
  ∧ length (MolGraph.a2b g) = length (MolGraph.a2b self).
Proof.
  unfold update_index_mappings. intros H.
  apply bind_inr in H as (rows1 & H1 & H). simpl in H.
  apply bind_inr in H as (rows2 & H2 & H). injection H as <-. simpl.
  rewrite <- !app_assoc. simpl. repeat split.
  unfold append_at in H1, H2.
  apply bind_inr in H1 as (r1 & _ & [= <-]).
  apply bind_inr in H2 as (r2 & _ & [= <-]).
  by rewrite !length_insert.
Qed.

Lemma append_edge_features_inr (a1 a2 : nat) (f_bond : list Q)
    (self g : MolGraph.t) :
  append_edge_features a1 a2 f_bond self = inr g →
  MolGraph.n_bonds g = MolGraph.n_bonds self
  ∧ MolGraph.b2a g = MolGraph.b2a self
  ∧ MolGraph.b2revb g = MolGraph.b2revb self
  ∧ MolGraph.n_atoms g = MolGraph.n_atoms self
  ∧ MolGraph.a2b g = MolGraph.a2b self.
Proof.
  unfold append_edge_features. intros H.
  apply bind_inr in H as (fa1 & _ & H). simpl in H.
  apply bind_inr in H as (fa2 & _ & H). by injection H as <-.
Qed.

Lemma no_edges_paired (self : MolGraph.t) : no_edges self → paired self.
Proof.
  intros (Hn & Ha & Hr). unfold paired, reverse_paired.
  rewrite Hn, Ha, Hr. repeat split. intros b Hb. lia.
Qed.

Lemma paired_ext (g g' : MolGraph.t) :
  MolGraph.n_bonds g' = MolGraph.n_bonds g →
  MolGraph.b2a g' = MolGraph.b2a g →
  MolGraph.b2revb g' = MolGraph.b2revb g →
  paired g → paired g'.
Proof.
  unfold paired, reverse_paired. intros -> -> ->. done.
Qed.

Lemma update_index_mappings_paired (a1 a2 : nat) (self g : MolGraph.t) :
  a1 ≠ a2 → paired self → update_index_mappings a1 a2 self = inr g → paired g.
Proof.
  intros Hne (Hla & Hlr & Hrev) Hrun.
  apply update_index_mappings_inr in Hrun as (Hn & Ha & Hr & _ & _).
  unfold paired, reverse_paired. rewrite Hn, Ha, Hr.
  set (n := MolGraph.n_bonds self) in *.
  split; [rewrite length_app; simpl; lia|].
  split; [rewrite length_app; simpl; lia|].
  intros b Hb.
  destruct (decide (b < n)) as [Hlt|Hge].
  - destruct (Hrev b Hlt) as (r & x & y & Hbr & Hrb & Hbx & Hry & Hxy).
    exists r, x, y.
    assert (r < n) by (rewrite <- Hlr; by eapply lookup_lt_Some).
    rewrite !lookup_app_l by lia. done.
  - destruct (decide (b = n)) as [->|Hne'].
    + exists (n + 1), a1, a2.
      rewrite !lookup_app_r by lia.
      rewrite Hla, Hlr.
      replace (n - n) with 0 by lia. replace (n + 1 - n) with 1 by lia.
      done.
    + assert (b = n + 1) as -> by lia.
      exists n, a2, a1.
      rewrite !lookup_app_r by lia.
      rewrite Hla, Hlr.
      replace (n - n) with 0 by lia. replace (n + 1 - n) with 1 by lia.
      done.
Qed.

Lemma molecule_edge_paired (mol : Mol) (bfe : option (list (list Q)))
    (ob : bool) (p : nat * nat) (self g : MolGraph.t) :
  p.1 < p.2 → paired self → molecule_edge mol bfe ob p self = inr g → paired g.
Proof.
  destruct p as [a1 a2]. simpl. intros Hlt Hp Hrun.
  unfold molecule_edge in Hrun.
  apply bind_inr in Hrun as (bond & _ & Hrun).
  destruct bond as [[idx bond]|]; [|by injection Hrun as <-].
  apply bind_inr in Hrun as (fb & _ & Hrun).
  apply bind_inr in Hrun as (fb' & _ & Hrun).
  apply bind_inr in Hrun as (self' & Hfeat & Hrun).
  apply append_edge_features_inr in Hfeat as (Hn & Ha & Hr & _).
  eapply update_index_mappings_paired; [| |exact Hrun]; [lia|].
  by eapply paired_ext.
Qed.

Lemma reaction_edge_paired (mol_reac mol_prod : Mol) (ri2pi : gmap nat nat)
    (pio : list nat) (n_atoms_reac : nat) (p : nat * nat)
    (self g : MolGraph.t) :
  p.1 < p.2 → paired self →
  reaction_edge mol_reac mol_prod ri2pi pio n_atoms_reac p self = inr g →
  paired g.
Proof.
  destruct p as [a1 a2]. simpl. intros Hlt Hp Hrun.
  unfold reaction_edge in Hrun.
  apply bind_inr in Hrun as ([br bp] & _ & Hrun).
  assert (Hgo : ∀ self', append_edge_features a1 a2 self'.1 self = inr self'.2 →
            update_index_mappings a1 a2 self'.2 = inr g → paired g).
  { intros [fb self'] Hfeat Hupd. simpl in *.
    apply append_edge_features_inr in Hfeat as (Hn & Ha & Hr & _).
    eapply update_index_mappings_paired; [| |exact Hupd]; [lia|].
    by eapply paired_ext. }
  destruct br as [br|], bp as [bp|];
    try (by injection Hrun as <-);
    apply bind_inr in Hrun as (fr & _ & Hrun);
    apply bind_inr in Hrun as (fp & _ & Hrun);
    apply bind_inr in Hrun as (fb & _ & Hrun);
    apply bind_inr in Hrun as (self' & Hfeat & Hrun);
    exact (Hgo (fb, self') Hfeat Hrun).
Qed.

Lemma molecule_edges_paired (mol : Mol) (bfe : option (list (list Q)))
    (ob : bool) (self g : MolGraph.t) :
  paired self → molecule_edges mol bfe ob self = inr g → paired g.
Proof.
  intros Hp Hrun. unfold molecule_edges in Hrun.
  eapply (for_each_invariant paired (λ p, p.1 < p.2)); [| |exact Hp|exact Hrun].
  - intros p s s' Hlt Hs Hbody. by eapply molecule_edge_paired.
  - eapply Forall_impl; [apply atom_pairs_ordered|]. simpl. lia.
Qed.

Lemma reaction_edges_paired (mol_reac mol_prod : Mol) (ri2pi : gmap nat nat)
    (pio : list nat) (n_atoms_reac : nat) (self g : MolGraph.t) :
  paired self →
  reaction_edges mol_reac mol_prod ri2pi pio n_atoms_reac self = inr g →
  paired g.
Proof.
  intros Hp Hrun. unfold reaction_edges in Hrun.
  eapply (for_each_invariant paired (λ p, p.1 < p.2)); [| |exact Hp|exact Hrun].
  - intros p s s' Hlt Hs Hbody. by eapply reaction_edge_paired.
  - eapply Forall_impl; [apply atom_pairs_ordered|]. simpl. lia.
Qed.

Lemma init_molecule_paired (mol : mol_input) (afe bfe : option (list (list Q)))
    (oa ob : bool) (self g : MolGraph.t) :
  no_edges self → init_molecule mol afe bfe oa ob self = inr g → paired g.
Proof.
  intros Hno Hrun. unfold init_molecule in Hrun.
  apply bind_inr in Hrun as (m & _ & Hrun).
  apply bind_inr in Hrun as (fa & _ & Hrun).
  destruct (is_not_none_and afe _); [discriminate|].
  apply bind_inr in Hrun as (g' & Hloop & Hrun).
  destruct (is_not_none_and bfe _); [discriminate|].
  injection Hrun as <-.
  eapply molecule_edges_paired; [|exact Hloop].
  apply no_edges_paired.
  destruct afe as [extra|]; [destruct oa|]; exact Hno.
Qed.

Lemma init_reaction_paired (mol : mol_input) (afe bfe : option (list (list Q)))
    (self g : MolGraph.t) :
  no_edges self → init_reaction mol afe bfe self = inr g → paired g.
Proof.
  intros Hno Hrun. unfold init_reaction in Hrun.
  destruct (is_not_none_and afe _); [discriminate|].
  destruct (is_not_none_and bfe _); [discriminate|].
  apply bind_inr in Hrun as ([mol_reac mol_prod] & _ & Hrun).
  apply bind_inr in Hrun as ([[ri2pi pio] rio] & _ & Hrun).
  apply bind_inr in Hrun as ([fr fp] & _ & Hrun).
  eapply reaction_edges_paired; [|exact Hrun].
  apply no_edges_paired. unfold combine_atoms.
  repeat (destruct (mode_is _ _)); exact Hno.
Qed.

(** C2. In every graph the builder's code produces (by either edge loop, by
    either branch, or by the constructor), every directed edge [b] has a
    reverse edge [r = b2revb[b]] with [b2revb[r] = b], and the origins
    [b2a[b]] and [b2a[r]] differ. *)
Theorem built_graph_reverse_edges (g : MolGraph.t) (b : nat) :
  built g → b < MolGraph.n_bonds g →
  ∃ r x y, MolGraph.b2revb g !! b = Some r
           ∧ MolGraph.b2revb g !! r = Some b
           ∧ MolGraph.b2a g !! b = Some x
           ∧ MolGraph.b2a g !! r = Some y
           ∧ x ≠ y.
Proof.
  intros Hbuilt. revert b.
  assert (Hp : paired g); [|exact (proj2 (proj2 Hp))].
  destruct Hbuilt as [self mol bfe ob Hno Hrun
                     |self mol_reac mol_prod ri2pi pio n Hno Hrun
                     |self mol afe bfe oa ob Hno Hrun
                     |self mol afe bfe Hno Hrun
                     |G mol afe bfe oa ob Hrun].
  - eapply molecule_edges_paired; [by apply no_edges_paired | exact Hrun].
  - eapply reaction_edges_paired; [by apply no_edges_paired | exact Hrun].
  - by eapply init_molecule_paired.
  - by eapply init_reaction_paired.
  - change (inl AttributeError = inr g) in Hrun. discriminate.
Qed.

(** The molecule branch's edge loop builds the graph of "C-C" from two atom
    rows: edge 0 runs from atom 0 to atom 1 and edge 1 back. *)
Lemma ethane_edges :
  molecule_edges ethane None false
    (at_edge_loop initial_globals [[1%Q]; [1%Q]] false false)
  = inr (ethane_graph false false).
Proof. vm_compute. done. Qed.

Lemma built_graph_reverse_edges_witness :
  ∃ r x y, MolGraph.b2revb (ethane_graph false false) !! 0 = Some r
           ∧ MolGraph.b2revb (ethane_graph false false) !! r = Some 0
           ∧ MolGraph.b2a (ethane_graph false false) !! 0 = Some x
           ∧ MolGraph.b2a (ethane_graph false false) !! r = Some y
           ∧ x ≠ y.
Proof.
  apply (built_graph_reverse_edges (ethane_graph false false) 0).
  - apply (built_molecule_edges _
             (at_edge_loop initial_globals [[1%Q]; [1%Q]] false false)
             ethane None false).
    + vm_compute. done.
    + vm_compute. done.
  - simpl. lia.
Defined.

(** ** The placement loop of [BatchMolGraph.__init__] *)

(** The loop of lines 420-421 in closed form. *)
Lemma place_atoms_inr (g : MolGraph.t) (n : nat) (st : Frame.t) :
  n ≤ length (MolGraph.a2b g) →
  for_each (place_atom g) (seq 0 n) st
  = inr (Frame.set_a2b
           (Frame.a2b st
              ++ (fmap (M:=list) (λ b, b + Frame.n_bonds st) <$> take n (MolGraph.a2b g)))
           (Frame.set_a (match n with 0 => Frame.a st | S k => Some k end) st)).
Proof.
  induction n as [|n IH]; intros Hn.
  - simpl. rewrite app_nil_r. by destruct st.
  - rewrite seq_S, for_each_app, IH by lia. simpl.
    destruct (lookup_lt_is_Some_2 (MolGraph.a2b g) n) as [row Hrow]; [lia|].
    unfold place_atom, getitem. simpl. rewrite Hrow. simpl.
    rewrite (take_S_r _ _ _ Hrow), fmap_app, app_assoc. by destruct st.
Qed.

(** The loop of lines 423-425 in closed form. *)
Lemma place_bonds_inr (g : MolGraph.t) (n : nat) (st : Frame.t) :
  n ≤ length (MolGraph.b2a g) → n ≤ length (MolGraph.b2revb g) →
  for_each (place_bond g) (seq 0 n) st
  = inr (Frame.set_b2revb
           (Frame.b2revb st
              ++ ((λ r, Frame.n_bonds st + r) <$> take n (MolGraph.b2revb g)))
           (Frame.set_b2a
              (Frame.b2a st
                 ++ ((λ x, Frame.n_atoms st + x) <$> take n (MolGraph.b2a g)))
              st)).
Proof.
  induction n as [|n IH]; intros Ha Hr.
  - simpl. rewrite !app_nil_r. by destruct st.
  - rewrite seq_S, for_each_app, IH by lia. simpl.
    destruct (lookup_lt_is_Some_2 (MolGraph.b2a g) n) as [x Hx]; [lia|].
    destruct (lookup_lt_is_Some_2 (MolGraph.b2revb g) n) as [r Hrev]; [lia|].
    unfold place_bond, getitem. simpl. rewrite Hx. simpl. rewrite Hrev. simpl.
    rewrite (take_S_r _ _ _ Hx), (take_S_r _ _ _ Hrev), !fmap_app, !app_assoc.
    by destruct st.
Qed.

(** Placing a well-formed graph succeeds and appends its rows, shifted. *)
Lemma place_inr (g : MolGraph.t) (st : Frame.t) :
  wf_graph g → ∃ st', place g st = inr st' ∧ placed_after g st st'.
Proof.
  intros (Ha & Hb & Hr). unfold place.
  rewrite place_atoms_inr by done. simpl.
  rewrite place_bonds_inr by done. simpl.
  eexists. split; [done|]. by repeat split.
Qed.

Lemma placed_after_frame_ok (g : MolGraph.t) (st st' : Frame.t) :
  wf_graph g → frame_ok st → placed_after g st st' → frame_ok st'.
Proof.
  intros (Ha & Hb & Hr) (Hla & Hlb & Hlr)
    (Hna & Hnb & Ea & Eb & Er & _).
  unfold frame_ok. rewrite Hna, Hnb, Ea, Eb, Er.
  rewrite !length_app, !length_fmap, !length_take. lia.
Qed.

Lemma placed_after_extends (g : MolGraph.t) (st st' : Frame.t) :
  placed_after g st st' → extends st st'.
Proof.
  intros (_ & _ & Ea & Eb & Er & Esa & Esb & Efa & Efb). unfold extends.
  rewrite Ea, Eb, Er, Esa, Esb, Efa, Efb.
  repeat split; by apply prefix_app_r.
Qed.

Lemma extends_trans (st1 st2 st3 : Frame.t) :
  extends st1 st2 → extends st2 st3 → extends st1 st3.
Proof.
  intros (A1 & A2 & A3 & A4 & A5 & A6 & A7) (B1 & B2 & B3 & B4 & B5 & B6 & B7).
  repeat split; by etrans.
Qed.

(** Placing well-formed graphs succeeds; the counts grow by the graphs'
    totals and nothing already placed is changed. *)
Lemma place_all_inr (gs : list MolGraph.t) (st : Frame.t) :
  Forall wf_graph gs → frame_ok st →
  ∃ st', place_all gs st = inr st'
         ∧ frame_ok st'
         ∧ extends st st'
         ∧ Frame.n_atoms st' = Frame.n_atoms st + sum_list (MolGraph.n_atoms <$> gs)
         ∧ Frame.n_bonds st' = Frame.n_bonds st + sum_list (MolGraph.n_bonds <$> gs)
         ∧ length (Frame.a_scope st') = length (Frame.a_scope st) + length gs
         ∧ length (Frame.b_scope st') = length (Frame.b_scope st) + length gs.
Proof.
  intros Hwf. revert st.
  induction Hwf as [|g gs Hg _ IH]; intros st Hok.
  - exists st. simpl. split; [done|]. split; [done|].
    split; [by repeat split|]. lia.
  - destruct (place_inr g st Hg) as (st1 & Hrun & Hplaced).
    destruct (IH st1 (placed_after_frame_ok _ _ _ Hg Hok Hplaced))
      as (st' & Hrest & Hok' & Hext & Hna & Hnb & Hsa & Hsb).
    exists st'.
    split; [unfold place_all in *; simpl; by rewrite Hrun|].
    split; [done|].
    split; [by eapply extends_trans; [eapply placed_after_extends|]|].
    destruct Hplaced as (Ea & Eb & _ & _ & _ & Esa & Esb & _).
    rewrite Hna, Hnb, Hsa, Hsb, Ea, Eb, Esa, Esb, !length_app, !fmap_cons.
    cbn [sum_list_with length]. unfold id. lia.
Qed.

Lemma lookup_placed {A B} (f : A → B) (base : list B) (l : list A)
    (n i : nat) (x : A) :
  l !! i = Some x → i < n →
  (base ++ (f <$> take n l)) !! (length base + i) = Some (f x).
Proof.
  intros Hx Hi. rewrite lookup_app_r by lia.
  replace (length base + i - length base) with i by lia.
  apply list_lookup_fmap_Some_2. by rewrite lookup_take_lt.
Qed.

Lemma first_frame_ok (atom_row bond_row : list Q) :
  frame_ok (first_frame atom_row bond_row).
Proof. done. Qed.

(** C3. In a batch of well-formed graphs the placement loop succeeds, and for
    the molecule [g] placed after the molecules [pre], with [A_prev] and
    [E_prev] the totals of atoms and edges placed before it (padding row
    included): its scopes start at [A_prev] and [E_prev]; each placed [b2a]
    entry is the original plus [A_prev]; each placed [b2revb] entry is the
    original plus [E_prev]; and each placed [a2b] list is the original with
    [E_prev] added to every edge index. *)
Theorem placed_indices_shifted (pre post : list MolGraph.t) (g : MolGraph.t)
    (atom_row bond_row : list Q) :
  Forall wf_graph (pre ++ g :: post) →
  ∃ st,
    place_all (pre ++ g :: post) (first_frame atom_row bond_row) = inr st
    ∧ Frame.a_scope st !! length pre
      = Some (atoms_before pre, MolGraph.n_atoms g)
    ∧ Frame.b_scope st !! length pre
      = Some (edges_before pre, MolGraph.n_bonds g)
    ∧ (∀ b, b < MolGraph.n_bonds g →
         ∃ x r, MolGraph.b2a g !! b = Some x
                ∧ MolGraph.b2revb g !! b = Some r
                ∧ Frame.b2a st !! (edges_before pre + b)
                  = Some (atoms_before pre + x)
                ∧ Frame.b2revb st !! (edges_before pre + b)
                  = Some (edges_before pre + r))
    ∧ (∀ a, a < MolGraph.n_atoms g →
         ∃ row, MolGraph.a2b g !! a = Some row
                ∧ Frame.a2b st !! (atoms_before pre + a)
                  = Some ((λ b, b + edges_before pre) <$> row)).
Proof.
  intros Hwf. apply Forall_app in Hwf as [Hpre Hrest].
  apply Forall_cons in Hrest as [Hg Hpost].
  destruct (place_all_inr pre _ Hpre (first_frame_ok atom_row bond_row))
    as (s1 & R1 & Ok1 & _ & Na1 & Nb1 & Sa1 & Sb1).
  destruct (place_inr g s1 Hg) as (s2 & R2 & P2).
  destruct (place_all_inr post s2 Hpost
              (placed_after_frame_ok _ _ _ Hg Ok1 P2))
    as (s3 & R3 & _ & Ext & _).
  exists s3. split.
  { unfold place_all in *. rewrite for_each_app, R1. simpl. by rewrite R2. }
  simpl in Na1, Nb1, Sa1, Sb1.
  change (Frame.n_atoms s1 = atoms_before pre) in Na1.
  change (Frame.n_bonds s1 = edges_before pre) in Nb1.
  destruct Ok1 as (La1 & Lb1 & Lr1).
  destruct Hg as (Ha & Hb & Hr).
  destruct P2 as (_ & _ & Ea & Eb & Er & Esa & Esb & _).
  destruct Ext as (Xa & Xb & Xr & Xsa & Xsb & _).
  rewrite Na1, Nb1 in *.
  split; [|split; [|split]].
  - eapply prefix_lookup_Some; [|exact Xsa].
    rewrite Esa, lookup_app_r by lia.
    by replace (length pre - length (Frame.a_scope s1)) with 0 by lia.
  - eapply prefix_lookup_Some; [|exact Xsb].
    rewrite Esb, lookup_app_r by lia.
    by replace (length pre - length (Frame.b_scope s1)) with 0 by lia.
  - intros b Hlt.
    destruct (lookup_lt_is_Some_2 (MolGraph.b2a g) b) as [x Hx]; [lia|].
    destruct (lookup_lt_is_Some_2 (MolGraph.b2revb g) b) as [r Hrev]; [lia|].
    exists x, r. split; [done|]. split; [done|]. split.
    + eapply prefix_lookup_Some; [|exact Xb].
      rewrite Eb, <- Lb1. by apply lookup_placed.
    + eapply prefix_lookup_Some; [|exact Xr].
      rewrite Er, <- Lr1. by apply lookup_placed.
  - intros a Hlt.
    destruct (lookup_lt_is_Some_2 (MolGraph.a2b g) a) as [row Hrow]; [lia|].
    exists row. split; [done|].
    eapply prefix_lookup_Some; [|exact Xa].
    rewrite Ea, <- La1.
    by apply (lookup_placed (fmap (M:=list) (λ b, b + edges_before pre))).
Qed.

Lemma placed_indices_shifted_witness :
  ∃ st,
    place_all ([ethane_graph false false] ++ ethane_graph false false
                 :: [lone_atom_graph])
      (first_frame [0%Q] [0%Q]) = inr st
    ∧ Frame.a_scope st !! 1 = Some (3, 2)
    ∧ Frame.b_scope st !! 1 = Some (3, 2)
    ∧ (∀ b, b < 2 →
         ∃ x r, MolGraph.b2a (ethane_graph false false) !! b = Some x
                ∧ MolGraph.b2revb (ethane_graph false false) !! b = Some r
                ∧ Frame.b2a st !! (3 + b) = Some (3 + x)
                ∧ Frame.b2revb st !! (3 + b) = Some (3 + r))
    ∧ (∀ a, a < 2 →
         ∃ row, MolGraph.a2b (ethane_graph false false) !! a = Some row
                ∧ Frame.a2b st !! (3 + a) = Some ((λ b, b + 3) <$> row)).
Proof.
  apply (placed_indices_shifted [ethane_graph false false] [lone_atom_graph]
           (ethane_graph false false) [0%Q] [0%Q]).
  repeat constructor; simpl; lia.
Defined.

(** ** [get_b2b] *)

Lemma comprehension_inr {A B} (f : A → result B) (g : A → B) (xs : list A) :
  Forall (λ x, f x = inr (g x)) xs → comprehension f xs = inr (g <$> xs).
Proof.
  induction 1 as [|x xs Hx _ IH]; simpl; [done|].
  by rewrite Hx, IH.
Qed.

Lemma index_rows_inr {A} (rows : list (list A)) (idx : list nat) :
  Forall (λ a, a < length rows) idx →
  index_rows rows idx = inr ((λ a, default [] (rows !! a)) <$> idx).
Proof.
  intros Hidx. apply comprehension_inr.
  eapply Forall_impl; [exact Hidx|]. intros a Ha. simpl in Ha.
  destruct (lookup_lt_is_Some_2 rows a Ha) as [row Hrow].
  unfold getitem. by rewrite Hrow.
Qed.

Lemma broadcast_same_length {A B C} (f : A → B → C) (xs : list A)
    (ys : list B) :
  length xs = length ys → broadcast f xs ys = inr (zip_with f xs ys).
Proof.
  intros Hlen. unfold broadcast.
  by rewrite (proj2 (Nat.eqb_eq _ _) Hlen).
Qed.

(** Multiplying a row by its 0/1 mask replaces the masked entries by 0. *)
Lemma mul_revmask (rev : nat) (row : list nat) :
  zip_with Nat.mul row
    ((λ e, if bool_decide (e ≠ rev) then 1 else 0) <$> row)
  = mask_reverse rev row.
Proof.
  unfold mask_reverse. induction row as [|e row IH]; [done|].
  rewrite !fmap_cons. cbn [zip_with]. rewrite IH. f_equal.
  repeat case_bool_decide; try done; lia.
Qed.

Lemma mask_reverse_excludes (rev : nat) (row : list nat) :
  rev ≠ 0 → rev ∉ mask_reverse rev row.
Proof.
  intros Hne Hin. unfold mask_reverse in Hin.
  apply list_elem_of_fmap in Hin as (e & He & _).
  case_bool_decide; congruence.
Qed.

(** C8. On a batch object whose derived mapping is not cached yet, [get_b2b]
    returns (and caches) one row per edge; the row of edge [b] is the
    incoming-edge row of [b]'s origin atom, [a2b[b2a[b]]], with every entry
    equal to [b2revb[b]] replaced by 0. Consequently the row of an edge whose
    reverse edge is a real edge (not the padding index 0) does not contain
    that reverse edge. *)
Theorem get_b2b_masks_reverse (self : BatchMolGraph.t) :
  BatchMolGraph.b2b self = None →
  length (BatchMolGraph.b2a self) = length (BatchMolGraph.b2revb self) →
  Forall (λ a, a < length (BatchMolGraph.a2b self)) (BatchMolGraph.b2a self) →
  ∃ b2b self',
    get_b2b self = inr (b2b, self')
    ∧ BatchMolGraph.b2b self' = Some b2b
    ∧ length b2b = length (BatchMolGraph.b2a self)
    ∧ ∀ b a rev row,
        BatchMolGraph.b2a self !! b = Some a →
        BatchMolGraph.b2revb self !! b = Some rev →
        BatchMolGraph.a2b self !! a = Some row →
        b2b !! b = Some (mask_reverse rev row)
        ∧ (rev ≠ 0 → rev ∉ mask_reverse rev row).
Proof.
  intros Hnone Hlen Hidx. unfold get_b2b. rewrite Hnone.
  rewrite (index_rows_inr _ _ Hidx). simpl.
  set (rows := (λ a, default [] (BatchMolGraph.a2b self !! a))
                 <$> BatchMolGraph.b2a self).
  assert (Hrows : length rows = length (BatchMolGraph.b2a self))
    by apply length_fmap.
  rewrite broadcast_same_length by lia. simpl.
  rewrite broadcast_same_length
    by (rewrite length_zip_with; lia). simpl.
  eexists _, _. split; [done|]. split; [done|].
  split; [rewrite !length_zip_with; lia|].
  intros b a rev row Ha Hrev Hrow.
  split; [|apply mask_reverse_excludes].
  rewrite !lookup_zip_with. unfold rows.
  rewrite list_lookup_fmap, Ha, Hrev. simpl. rewrite Hrow. simpl.
  by rewrite mul_revmask.
Qed.

Lemma get_b2b_masks_reverse_witness :
  ∃ b2b self',
    get_b2b propane_batch = inr (b2b, self')
    ∧ BatchMolGraph.b2b self' = Some b2b
    ∧ length b2b = length (BatchMolGraph.b2a propane_batch)
    ∧ ∀ b a rev row,
        BatchMolGraph.b2a propane_batch !! b = Some a →
        BatchMolGraph.b2revb propane_batch !! b = Some rev →
        BatchMolGraph.a2b propane_batch !! a = Some row →
        b2b !! b = Some (mask_reverse rev row)
        ∧ (rev ≠ 0 → rev ∉ mask_reverse rev row).
Proof.
  apply (get_b2b_masks_reverse propane_batch).
  - reflexivity.
  - reflexivity.
  - simpl. repeat constructor.
Defined.

(** On the batch of "C-C-C", edge 2 (atom 2 to atom 1) keeps the incoming
    edge 4 of its origin and loses its own reverse edge 1. *)
Lemma get_b2b_propane :
  fst <$> get_b2b propane_batch = inr [[0; 0]; [0; 0]; [0; 4]; [1; 0]; [0; 0]].
Proof. vm_compute. done. Qed.

(** ** Supplements *)

(** The placement loop succeeds only on well-formed graphs. *)
Lemma place_inr_wf (g : MolGraph.t) (st st' : Frame.t) :
  place g st = inr st' → wf_graph g.
Proof.
  unfold place. intros Hrun.
  apply bind_inr in Hrun as (s1 & Hatoms & Hrun).
  apply bind_inr in Hrun as (s2 & Hbonds & _).
  assert (Ha : ∀ n s s', for_each (place_atom g) (seq 0 n) s = inr s' →
                         n ≤ length (MolGraph.a2b g)).
  { induction n as [|n IH]; intros s s' H; [lia|].
    rewrite seq_S, for_each_app in H.
    apply bind_inr in H as (s0 & _ & H). simpl in H.
    apply bind_inr in H as (s3 & H & _). unfold place_atom in H.
    apply bind_inr in H as (row & H & _). unfold getitem in H.
    destruct (MolGraph.a2b g !! n) eqn:E; [|discriminate].
    apply lookup_lt_Some in E. lia. }
  assert (Hb : ∀ n s s', for_each (place_bond g) (seq 0 n) s = inr s' →
                         n ≤ length (MolGraph.b2a g)
                         ∧ n ≤ length (MolGraph.b2revb g)).
  { induction n as [|n IH]; intros s s' H; [lia|].
    rewrite seq_S, for_each_app in H.
    apply bind_inr in H as (s0 & _ & H). simpl in H.
    apply bind_inr in H as (s3 & H & _). unfold place_bond in H.
    apply bind_inr in H as (x & Hx & H). simpl in H.
    apply bind_inr in H as (r & Hr & _). unfold getitem in Hx, Hr.
    destruct (MolGraph.b2a g !! n) eqn:E1; [|discriminate].
    destruct (MolGraph.b2revb g !! n) eqn:E2; [|discriminate].
    apply lookup_lt_Some in E1, E2. lia. }
  split; [by eapply Ha|]. by eapply Hb.
Qed.

(** X9. The placement loop returns only on graphs whose mappings cover
    their counts. *)
Lemma place_all_inr_wf (gs : list MolGraph.t) (st st' : Frame.t) :
  place_all gs st = inr st' → Forall wf_graph gs.
Proof.
  revert st. induction gs as [|g gs IH]; intros st Hrun; [done|].
  unfold place_all in *. simpl in Hrun.
  apply bind_inr in Hrun as (s1 & Hg & Hrest).
  constructor; [by eapply place_inr_wf | by eapply IH].
Qed.

(** X8. In a placed batch only the padding edge has reverse index 0: every
    entry of [b2revb] after the first is at least 1. *)
Lemma placed_reverse_nonzero (gs : list MolGraph.t) (atom_row bond_row : list Q)
    (st : Frame.t) (b rev : nat) :
  place_all gs (first_frame atom_row bond_row) = inr st →
  Frame.b2revb st !! b = Some rev → 1 ≤ b → 1 ≤ rev.
Proof.
  intros Hrun. revert b rev.
  assert (Hinv : ∀ gs s s',
            place_all gs s = inr s' →
            1 ≤ Frame.n_bonds s →
            (∀ b r, Frame.b2revb s !! b = Some r → 1 ≤ b → 1 ≤ r) →
            ∀ b r, Frame.b2revb s' !! b = Some r → 1 ≤ b → 1 ≤ r).
  { clear. induction gs as [|g gs IH]; intros s s' Hrun Hn Hs.
    - by injection Hrun as <-.
    - unfold place_all in *. simpl in Hrun.
      apply bind_inr in Hrun as (s1 & Hg & Hrest).
      destruct (place_inr g s (place_inr_wf _ _ _ Hg)) as (s1' & Hg' & P).
      rewrite Hg in Hg'. injection Hg' as <-.
      destruct P as (_ & Enb & _ & _ & Er & _).
      eapply IH; [exact Hrest | lia |].
      intros b r Hb Hpos. rewrite Er in Hb.
      apply lookup_app_Some in Hb as [Hb|[_ Hb]]; [by eapply Hs|].
      apply list_lookup_fmap_Some in Hb as (r0 & -> & _). lia. }
  intros b rev Hb Hpos.
  eapply (Hinv gs _ st Hrun); [simpl; lia | | exact Hb | exact Hpos].
  intros b' r' Hb' Hpos'. destruct b' as [|b']; [lia|].
  simpl in Hb'. by rewrite lookup_nil in Hb'.
Qed.

(** The molecule branch, when it returns, returns a well-formed graph. *)
Lemma edge_loop_rows {A} (body : A → MolGraph.t → result MolGraph.t)
    (xs : list A) (self g : MolGraph.t) :
  (∀ x s s', body x s = inr s' →
             MolGraph.n_atoms s' = MolGraph.n_atoms s
             ∧ length (MolGraph.a2b s') = length (MolGraph.a2b s)) →
  for_each body xs self = inr g →
  MolGraph.n_atoms g = MolGraph.n_atoms self
  ∧ length (MolGraph.a2b g) = length (MolGraph.a2b self).
Proof.
  intros Hbody. revert self.
  induction xs as [|x xs IH]; intros self Hrun; simpl in Hrun.
  - by injection Hrun as <-.
  - apply bind_inr in Hrun as (s & Hs & Hrest).
    destruct (Hbody _ _ _ Hs) as [E1 E2]. destruct (IH _ Hrest) as [E3 E4].
    split; congruence.
Qed.

Lemma molecule_edge_rows (mol : Mol) (bfe : option (list (list Q)))
    (ob : bool) (p : nat * nat) (s s' : MolGraph.t) :
  molecule_edge mol bfe ob p s = inr s' →
  MolGraph.n_atoms s' = MolGraph.n_atoms s
  ∧ length (MolGraph.a2b s') = length (MolGraph.a2b s).
Proof.
  destruct p as [a1 a2]. unfold molecule_edge. intros Hrun.
  apply bind_inr in Hrun as (bond & _ & Hrun).
  destruct bond as [[idx bond]|]; [|by injection Hrun as <-].
  apply bind_inr in Hrun as (fb & _ & Hrun).
  apply bind_inr in Hrun as (fb' & _ & Hrun).
  apply bind_inr in Hrun as (s1 & Hfeat & Hrun).
  apply append_edge_features_inr in Hfeat as (_ & _ & _ & <- & <-).
  by apply update_index_mappings_inr in Hrun as (_ & _ & _ & -> & ->).
Qed.

Lemma init_molecule_wf (mol : mol_input) (afe bfe : option (list (list Q)))
    (oa ob : bool) (self g : MolGraph.t) :
  no_edges self → init_molecule mol afe bfe oa ob self = inr g → wf_graph g.
Proof.
  intros Hno Hrun.
  destruct (init_molecule_paired _ _ _ _ _ _ _ Hno Hrun) as (Hla & Hlr & _).
  unfold init_molecule in Hrun.
  apply bind_inr in Hrun as (m & _ & Hrun).
  apply bind_inr in Hrun as (fa & _ & Hrun).
  destruct (is_not_none_and afe _); [discriminate|].
  apply bind_inr in Hrun as (g' & Hloop & Hrun).
  destruct (is_not_none_and bfe _); [discriminate|].
  injection Hrun as <-.
  unfold molecule_edges in Hloop.
  apply (edge_loop_rows _ _ _ _ (molecule_edge_rows m bfe ob)) in Hloop
    as [Hn Hl].
  unfold wf_graph. rewrite Hn, Hl, Hla, Hlr. simpl.
  rewrite length_app, length_replicate. lia.
Qed.

(** X1. [onek_encoding_unk] returns a vector of length [len(choices) + 1]
    that is zero except for a single 1: at a position of [value] in
    [choices], or at the last position when [value] is not a choice. *)
Theorem onek_encoding_unk_one_hot (value : Z) (choices : list Z) :
  ∃ k e,
    onek_encoding_unk value choices = inr e
    ∧ length e = length choices + 1
    ∧ e !! k = Some 1%Q
    ∧ (∀ j, j ≠ k → j < length e → e !! j = Some 0%Q)
    ∧ (if bool_decide (value ∈ choices) then choices !! k = Some value
       else k = length choices).
Proof.
  destruct (onek_encoding_unk_total value choices) as (k & Hk & -> & Hin & Hout).
  exists k. eexists. split; [done|].
  rewrite length_insert, length_replicate.
  split; [done|]. split.
  { apply list_lookup_insert_eq. rewrite length_replicate. lia. }
  split.
  { intros j Hj Hlt. rewrite list_lookup_insert_ne by done.
    by apply lookup_replicate_2. }
  case_bool_decide; auto.
Qed.

(** X10. The first call of [get_b2b] fills the cache and the second returns
    it. *)
Lemma get_b2b_cached (self self' : BatchMolGraph.t) (b2b : list (list nat)) :
  get_b2b self = inr (b2b, self') →
  BatchMolGraph.b2b self' = Some b2b ∧ get_b2b self' = inr (b2b, self').
Proof.
  unfold get_b2b at 1. intros Hrun.
  assert (Hc : BatchMolGraph.b2b self' = Some b2b).
  { destruct (BatchMolGraph.b2b self) as [t|] eqn:E.
    - injection Hrun as <- <-. done.
    - apply bind_inr in Hrun as (r1 & _ & Hrun).
      apply bind_inr in Hrun as (r2 & _ & Hrun).
      apply bind_inr in Hrun as (r3 & _ & Hrun).
      by injection Hrun as <- <-. }
  split; [done|]. unfold get_b2b. by rewrite Hc.
Qed.

Lemma get_b2b_cached_witness :
  BatchMolGraph.b2b
    (BatchMolGraph.set_b2b (Some [[0; 0]; [0; 0]; [0; 4]; [1; 0]; [0; 0]])
       propane_batch)
  = Some [[0; 0]; [0; 0]; [0; 4]; [1; 0]; [0; 0]]
  ∧ get_b2b
      (BatchMolGraph.set_b2b (Some [[0; 0]; [0; 0]; [0; 4]; [1; 0]; [0; 0]])
         propane_batch)
    = inr ([[0; 0]; [0; 0]; [0; 4]; [1; 0]; [0; 0]],
           BatchMolGraph.set_b2b (Some [[0; 0]; [0; 0]; [0; 4]; [1; 0]; [0; 0]])
             propane_batch).
Proof.
  apply (get_b2b_cached propane_batch). vm_compute. reflexivity.
Defined.

Lemma max_num_bonds_of_spec_witness :
  max_num_bonds_of [[]; [2]; [1]]
  = inr (Nat.max 1 (max_list (length <$> [[]; [2]; [1]]))).
Proof. apply (max_num_bonds_of_spec [[]; [2]; [1]]). discriminate. Defined.

Lemma place_ethane :
  place_all [ethane_graph false false] (first_frame [0%Q] [0%Q])
  = inr ethane_frame.
Proof. vm_compute. done. Qed.

Lemma place_all_inr_wf_witness : Forall wf_graph [ethane_graph false false].
Proof.
  apply (place_all_inr_wf [ethane_graph false false]
           (first_frame [0%Q] [0%Q]) ethane_frame).
  vm_compute. reflexivity.
Defined.

Lemma placed_reverse_nonzero_witness :
  Frame.b2revb ethane_frame !! 1 = Some 2 ∧ 1 ≤ 2.
Proof.
  split; [reflexivity|].
  apply (placed_reverse_nonzero [ethane_graph false false] [0%Q] [0%Q]
           ethane_frame 1 2).
  - vm_compute. reflexivity.
  - reflexivity.
  - lia.
Defined.

(** ** [mol2graph], [get_components] and the globals *)

Lemma MolGraph_call_raises (G : Globals) (mol : option mol_input)
    (afe bfe : option (list (list Q))) (oa ob : bool) :
  MolGraph_call G mol afe bfe oa ob = inl AttributeError.
Proof. by destruct mol. Qed.

Lemma comprehension_first_raises {A B} (f : A → result B) (e : exn)
    (x : A) (xs : list A) :
  f x = inl e → comprehension f (x :: xs) = inl e.
Proof. intros H. simpl. by rewrite H. Qed.

(** X11. [mol2graph] never returns a batch. When the molecules and both feature
    batches are empty it raises [IndexError] (in [BatchMolGraph]); otherwise
    the first graph construction raises [AttributeError]. With the default
    feature batches [(None,)] that is the outcome for every list of
    molecules, the empty list included. *)
Theorem mol2graph_raises (G : Globals) (mols : list mol_input)
    (afb bfb : list (option (list (list Q)))) (oa ob : bool) :
  mol2graph G mols afb bfb oa ob
  = inl (if Nat.max (Nat.max (length mols) (length afb)) (length bfb) =? 0
         then IndexError else AttributeError)
  ∧ mol2graph G mols [None] [None] oa ob = inl AttributeError.
Proof.
  assert (Hgen : ∀ a b : list (option (list (list Q))),
            mol2graph G mols a b oa ob
            = inl (if Nat.max (Nat.max (length mols) (length a)) (length b) =? 0
                   then IndexError else AttributeError)).
  { intros a b. unfold mol2graph, zip_longest.
    generalize (Nat.max (Nat.max (length mols) (length a)) (length b)).
    intros [|n]; [reflexivity|].
    cbn [seq fmap list_fmap].
    rewrite (comprehension_first_raises _ AttributeError); [reflexivity|].
    destruct (mols !! 0); reflexivity. }
  split; [apply Hgen|].
  rewrite Hgen. cbn [length].
  by destruct (length mols) as [|[|k]].
Qed.

(** X12. [get_components] with [atom_messages] set raises [TypeError], because
    the slice bound negates the value of [get_bond_fdim], which is [None];
    without it the seven components are returned as stored, the edge
    features unsliced. *)
Theorem get_components_atom_messages (self : BatchMolGraph.t) :
  get_components self true = inl TypeError
  ∧ get_components self false
    = inr (BatchMolGraph.f_atoms self, BatchMolGraph.f_bonds self,
           BatchMolGraph.a2b self, BatchMolGraph.b2a self,
           BatchMolGraph.b2revb self, BatchMolGraph.a_scope self,
           BatchMolGraph.b_scope self).
Proof. done. Qed.

(** X13. Switching reaction mode off after it was on clears only the flag: the
    extra dimensions and the mode that [set_reaction(True, mode)] stored stay
    in force, so the atom dimension stays 165 instead of returning to 133. *)
Theorem set_reaction_off_keeps_dimensions (G : Globals) (mode mode' : string)
    (oa : bool) :
  let G' := set_reaction false mode' (set_reaction true mode G) in
  is_reaction G' = false
  ∧ reaction_mode G' = Some mode
  ∧ EXTRA_ATOM_FDIM G' = ATOM_FDIM - MAX_ATOMIC_NUM - 1
  ∧ EXTRA_BOND_FDIM G' = BOND_FDIM
  ∧ is_explicit_h G' = is_explicit_h G
  ∧ get_atom_fdim G' false = 165
  ∧ get_atom_fdim initial_globals false = 133.
Proof. simpl. repeat split. Qed.

(** ** Reaction mode: dimensions, modes and the atom mapping *)

Lemma Forall_zip_with2 {A B C} (f : A → B → C) (P : A → Prop) (Q : B → Prop)
    (R : C → Prop) (l : list A) (k : list B) :
  (∀ x y, P x → Q y → R (f x y)) →
  Forall P l → Forall Q k → Forall R (zip_with f l k).
Proof.
  intros Hf Hl. revert k.
  induction Hl as [|x l Hx _ IH]; intros k Hk; [constructor|].
  destruct Hk as [|y k Hy Hk]; [constructor|].
  simpl. constructor; [by apply Hf | by apply IH].
Qed.

(** X14. In each of the three reaction modes the combined atom rows have the
    length that [get_atom_fdim] reports after [set_reaction(True, mode)], and
    a combined bond vector has [BOND_FDIM] plus the extra bond dimension that
    [set_reaction] stored: the dimensions the setter announces are the ones
    the builder produces. *)
Theorem reaction_dimensions_agree (G : Globals) (mode : string)
    (f_atoms_reac f_atoms_prod : list (list Q)) (f_bond_reac f_bond_prod : list Q)
    (self : MolGraph.t) :
  known_mode mode →
  Forall (λ row, length row = ATOM_FDIM) f_atoms_reac →
  Forall (λ row, length row = ATOM_FDIM) f_atoms_prod →
  length f_bond_reac = BOND_FDIM → length f_bond_prod = BOND_FDIM →
  Forall (λ row, length row = get_atom_fdim (set_reaction true mode G) false)
    (MolGraph.f_atoms (combine_atoms (Some mode) f_atoms_reac f_atoms_prod self))
  ∧ ∃ f_bond,
      combine_bonds (Some mode) f_bond_reac f_bond_prod = inr f_bond
      ∧ length f_bond
        = BOND_FDIM + EXTRA_BOND_FDIM (set_reaction true mode G).
Proof.
  intros Hmode Hr Hp Hbr Hbp.
  assert (Hdim : get_atom_fdim (set_reaction true mode G) false = 165)
    by reflexivity.
  rewrite Hdim. clear Hdim.
  assert (Hd : Forall (λ row : list Q, length row = 133)
                 (zip_with (zip_with (λ x y, x - y)%Q) f_atoms_prod f_atoms_reac)).
  { eapply Forall_zip_with2; [|exact Hp|exact Hr].
    intros x y Hx Hy. simpl in *. rewrite length_zip_with, Hx, Hy.
    rewrite ATOM_FDIM_value. lia. }
  assert (Htail : ∀ l k : list (list Q),
            Forall (λ row, length row = ATOM_FDIM) l →
            Forall (λ row : list Q, length row = 133) k →
            Forall (λ row : list Q, length row = 165)
              (zip_with (λ x y, x ++ drop (MAX_ATOMIC_NUM + 1) y) l k)).
  { intros l k Hl Hk. eapply Forall_zip_with2; [|exact Hl|exact Hk].
    intros x y Hx Hy. simpl in *.
    rewrite length_app, length_drop, Hx, Hy, ATOM_FDIM_value.
    unfold MAX_ATOMIC_NUM. lia. }
  assert (Hp' : Forall (λ row : list Q, length row = 133) f_atoms_prod).
  { eapply Forall_impl; [exact Hp|]. intros row. by rewrite ATOM_FDIM_value. }
  unfold combine_atoms, combine_bonds, mode_is.
  destruct Hmode as [-> | [-> | ->]];
    (split;
     [ cbn [MolGraph.f_atoms MolGraph.set_f_atoms bool_decide decide_rel];
       simpl; by apply Htail
     | simpl; eexists; split; [reflexivity|];
       rewrite length_app, ?length_zip_with, Hbr, Hbp; reflexivity ]).
Qed.

Lemma reaction_dimensions_agree_witness :
  Forall (λ row, length row
                 = get_atom_fdim (set_reaction true "reac_diff" initial_globals)
                     false)
    (MolGraph.f_atoms
       (combine_atoms (Some "reac_diff") [replicate ATOM_FDIM 0%Q]
          [replicate ATOM_FDIM 1%Q] (new_self reaction_globals false false)))
  ∧ ∃ f_bond,
      combine_bonds (Some "reac_diff") (replicate BOND_FDIM 0%Q)
        (replicate BOND_FDIM 1%Q) = inr f_bond
      ∧ length f_bond
        = BOND_FDIM
          + EXTRA_BOND_FDIM (set_reaction true "reac_diff" initial_globals).
Proof.
  apply (reaction_dimensions_agree initial_globals "reac_diff").
  - right. left. reflexivity.
  - repeat constructor.
  - repeat constructor.
  - reflexivity.
  - reflexivity.
Defined.



Lemma prod_loop_ids (mol_reac : Mol) (atoms : list (nat * Atom))
    (ids : list nat) (m : gmap Z nat) :
  (foldl (prod_step (list_to_set (GetAtomMapNum <$> GetAtoms mol_reac)))
     (ids, m) atoms).1
  = ids ++ (fst <$> filter (product_only mol_reac) atoms).
Proof.
  revert ids m. induction atoms as [|[idx atom] atoms IH]; intros ids m.
  - simpl. by rewrite app_nil_r.
  - cbn [foldl]. unfold prod_step at 2.
    rewrite filter_cons. unfold product_only at 2. cbn [snd].
    destruct (decide (0 < GetAtomMapNum atom)%Z) as [Hpos|Hpos].
    + rewrite (bool_decide_eq_true_2 _ Hpos).
      destruct (decide (GetAtomMapNum atom
                        ∉ (list_to_set (GetAtomMapNum <$> GetAtoms mol_reac)
                           : gset Z))) as [Hout|Hin].
      * rewrite (bool_decide_eq_true_2 _ Hout).
        rewrite decide_True by (by right).
        rewrite IH, fmap_cons, <- app_assoc. done.
      * rewrite (bool_decide_eq_false_2 _ Hin).
        rewrite decide_False by (intros [?|?]; done).
        apply IH.
    + rewrite (bool_decide_eq_false_2 _ Hpos).
      rewrite decide_True by (by left).
      rewrite IH, fmap_cons, <- app_assoc. done.
Qed.

(** X16. The first loop of [map_reac_to_prod] is right: whenever the function
    returns a tuple (the reactant has an atom), its product-only list is
    exactly the indices of the product atoms that carry no positive map
    number or a map number no reactant atom carries, in index order. *)
Theorem map_reac_to_prod_product_only (mol_reac mol_prod : Mol) :
  GetAtoms mol_reac ≠ [] →
  ∃ ri2pi rio,
    map_reac_to_prod mol_reac mol_prod
    = Some (ri2pi,
            fst <$> filter (product_only mol_reac)
                      (enumerate (GetAtoms mol_prod)),
            rio).
Proof.
  intros Hne. unfold map_reac_to_prod.
  pose proof (prod_loop_ids mol_reac (enumerate (GetAtoms mol_prod)) [] ∅)
    as Hids.
  destruct (foldl _ _ _) as [pio p2i]. simpl in Hids. subst pio.
  unfold reac_loop, enumerate.
  destruct (GetAtoms mol_reac) as [|a rest]; [done|]. simpl.
  case_bool_decide; [destruct (p2i !! GetAtomMapNum a)|]; by eexists _, _.
Qed.

Lemma map_reac_to_prod_product_only_witness :
  ∃ ri2pi rio,
    map_reac_to_prod reactant_AB product_AC
    = Some (ri2pi,
            fst <$> filter (product_only reactant_AB)
                      (enumerate (GetAtoms product_AC)),
            rio).
Proof.
  apply (map_reac_to_prod_product_only reactant_AB product_AC).
  discriminate.
Defined.

(** X17. When the second atom of a pair is product-only ([a2] at or beyond the
    reactant's atom count) the reactant-side bond is always [None]; if the
    first atom is a reactant atom without a product counterpart, both sides
    are [None] and the pair adds no edge, whatever bonds the molecules
    have. *)
Theorem reaction_bonds_product_only (mol_reac mol_prod : Mol)
    (ri2pi : gmap nat nat) (pio : list nat) (n_atoms_reac a1 a2 : nat)
    (self : MolGraph.t) :
  n_atoms_reac ≤ a2 →
  (∀ br bp, reaction_bonds mol_reac mol_prod ri2pi pio n_atoms_reac a1 a2
            = inr (br, bp) → br = None)
  ∧ (a1 < n_atoms_reac → ri2pi !! a1 = None →
     reaction_edge mol_reac mol_prod ri2pi pio n_atoms_reac (a1, a2) self
     = inr self).
Proof.
  intros Ha2. split.
  - intros br bp. unfold reaction_bonds.
    case_bool_decide as H1.
    { intros H. apply bind_inr in H as (p1 & _ & H).
      apply bind_inr in H as (p2 & _ & H).
      apply bind_inr in H as (b & _ & H). by injection H as <- _. }
    case_bool_decide as H2; [|lia].
    destruct (ri2pi !! a1); [|by intros [= <- _]].
    intros H. apply bind_inr in H as (p2 & _ & H).
    apply bind_inr in H as (b & _ & H). by injection H as <- _.
  - intros Ha1 Hnone. unfold reaction_edge, reaction_bonds.
    rewrite bool_decide_eq_false_2 by lia.
    rewrite bool_decide_eq_true_2 by lia.
    by rewrite Hnone.
Qed.

Lemma reaction_bonds_product_only_witness :
  (∀ br bp, reaction_bonds reactant_AB product_AC {[0 := 0]} [1] 2 1 2
            = inr (br, bp) → br = None)
  ∧ (1 < 2 → ({[0 := 0]} : gmap nat nat) !! 1 = None →
     reaction_edge reactant_AB product_AC {[0 := 0]} [1] 2 (1, 2)
       (new_self reaction_globals false false)
     = inr (new_self reaction_globals false false)).
Proof.
  apply (reaction_bonds_product_only reactant_AB product_AC {[0 := 0]} [1]
           2 1 2). lia.
Defined.

(** ** The molecule branch's treatment of extra bond features *)

Lemma for_each_ext {A S} (f g : A → S → result S) (xs : list A) (st : S) :
  (∀ x s, f x s = g x s) → for_each f xs st = for_each g xs st.
Proof.
  intros Hfg. revert st. induction xs as [|x xs IH]; intros st; [done|].
  simpl. rewrite Hfg. destruct (g x st); simpl; [done | apply IH].
Qed.

(** X18. The overwrite policy for bond features has no effect on the edge loop:
    both arms of line 283 assign the extra descriptor alone, so with extra
    bond features the default bond features are dropped under either policy
    and an edge row is the origin's atom row followed by the descriptor. *)
Theorem bond_overwrite_policy_ignored (mol : Mol)
    (bfe : option (list (list Q))) (ob ob' : bool) (self : MolGraph.t) :
  molecule_edges mol bfe ob self = molecule_edges mol bfe ob' self
  ∧ ∀ extra a1 a2 idx bond,
      GetBondBetweenAtoms mol a1 a2 = inr (Some (idx, bond)) →
      molecule_edge mol (Some extra) ob (a1, a2) self
      = (descr ← getitem extra idx;
         self ← append_edge_features a1 a2 descr self;
         update_index_mappings a1 a2 self).
Proof.
  split.
  - unfold molecule_edges. apply for_each_ext. intros [a1 a2] s.
    unfold molecule_edge.
    destruct (GetBondBetweenAtoms mol a1 a2) as [e|[[idx bond]|]];
      [reflexivity| |reflexivity].
    cbn -[bond_features getitem append_edge_features update_index_mappings].
    destruct (bond_features (Some bond)) as [e|fb]; [reflexivity|].
    destruct bfe as [extra|]; [|reflexivity].
    cbn -[getitem append_edge_features update_index_mappings].
    destruct (getitem extra idx) as [e|descr]; [reflexivity|].
    by destruct ob, ob'.
  - intros extra a1 a2 idx bond Hbond. unfold molecule_edge.
    rewrite Hbond.
    cbn -[bond_features getitem append_edge_features update_index_mappings].
    destruct (bond_features_total (Some bond)) as (fb & -> & _).
    cbn -[getitem append_edge_features update_index_mappings].
    destruct (getitem extra idx) as [e|descr]; [reflexivity|].
    by destruct ob.
Qed.

Lemma bond_overwrite_policy_ignored_witness :
  molecule_edges ethane (Some [[5%Q]]) true
    (at_edge_loop initial_globals [[1%Q]; [1%Q]] false true)
  = molecule_edges ethane (Some [[5%Q]]) false
      (at_edge_loop initial_globals [[1%Q]; [1%Q]] false true)
  ∧ molecule_edge ethane (Some [[5%Q]]) true (0, 1)
      (at_edge_loop initial_globals [[1%Q]; [1%Q]] false true)
    = (descr ← getitem [[5%Q]] 0;
       self ← append_edge_features 0 1 descr
                (at_edge_loop initial_globals [[1%Q]; [1%Q]] false true);
       update_index_mappings 0 1 self).
Proof.
  destruct (bond_overwrite_policy_ignored ethane (Some [[5%Q]]) true false
              (at_edge_loop initial_globals [[1%Q]; [1%Q]] false true))
    as [H1 H2].
  split; [exact H1|].
  apply (H2 [[5%Q]] 0 1 0 (single_bond 0 1)). reflexivity.
Defined.

(** ** [get_a2a] and [max_num_bonds] *)

(** X19. On a batch object whose neighbour mapping is not cached and whose
    incoming-edge entries all index [b2a], [get_a2a] returns (and caches) an
    array of the shape of [a2b] whose entry [(a, j)] is [b2a[a2b[a][j]]]: the
    origin atom of the [j]-th incoming edge of atom [a]. *)
Theorem get_a2a_neighbours (self : BatchMolGraph.t) :
  BatchMolGraph.a2a self = None →
  Forall (Forall (λ b, b < length (BatchMolGraph.b2a self)))
    (BatchMolGraph.a2b self) →
  ∃ a2a self',
    get_a2a self = inr (a2a, self')
    ∧ BatchMolGraph.a2a self' = Some a2a
    ∧ length a2a = length (BatchMolGraph.a2b self)
    ∧ ∀ a row,
        BatchMolGraph.a2b self !! a = Some row →
        ∃ nbrs, a2a !! a = Some nbrs
                ∧ length nbrs = length row
                ∧ ∀ j b, row !! j = Some b →
                         nbrs !! j = BatchMolGraph.b2a self !! b.
Proof.
  intros Hnone Hidx. unfold get_a2a. rewrite Hnone.
  set (origin := λ b, default 0 (BatchMolGraph.b2a self !! b)).
  rewrite (comprehension_inr _ (fmap origin)).
  - simpl. eexists _, _. split; [done|]. split; [done|].
    split; [by rewrite length_fmap|].
    intros a row Hrow. exists (origin <$> row).
    rewrite list_lookup_fmap, Hrow. split; [done|].
    split; [by rewrite length_fmap|].
    intros j b Hj. rewrite list_lookup_fmap, Hj. simpl. unfold origin.
    rewrite Forall_forall in Hidx.
    assert (Hb : b < length (BatchMolGraph.b2a self)).
    { eapply (proj1 (Forall_forall _ _) (Hidx row _)).
      by eapply list_elem_of_lookup_2. }
    destruct (lookup_lt_is_Some_2 _ _ Hb) as [x ->]. done.
  - eapply Forall_impl; [exact Hidx|]. intros row Hrow. simpl in Hrow.
    apply comprehension_inr.
    eapply Forall_impl; [exact Hrow|]. intros b Hb. simpl in Hb.
    unfold getitem, origin.
    by destruct (lookup_lt_is_Some_2 _ _ Hb) as [x ->].
  Unshelve. by eapply list_elem_of_lookup_2.
Qed.

Lemma get_a2a_neighbours_witness :
  ∃ a2a self',
    get_a2a propane_batch = inr (a2a, self')
    ∧ BatchMolGraph.a2a self' = Some a2a
    ∧ length a2a = length (BatchMolGraph.a2b propane_batch)
    ∧ ∀ a row,
        BatchMolGraph.a2b propane_batch !! a = Some row →
        ∃ nbrs, a2a !! a = Some nbrs
                ∧ length nbrs = length row
                ∧ ∀ j b, row !! j = Some b →
                         nbrs !! j = BatchMolGraph.b2a propane_batch !! b.
Proof.
  apply (get_a2a_neighbours propane_batch).
  - reflexivity.
  - simpl. repeat constructor.
Defined.

(** A comprehension whose elements can fail in one way only fails in that
    way as soon as one element fails. *)
Lemma comprehension_raises {A B} (f : A → result B) (e : exn) (xs : list A)
    (x : A) :
  x ∈ xs → f x = inl e → (∀ y e', f y = inl e' → e' = e) →
  comprehension f xs = inl e.
Proof.
  intros Hin Hx Honly. induction xs as [|y ys IH]; [by apply elem_of_nil in Hin|].
  simpl. destruct (f y) as [e'|v] eqn:Hy.
  - by rewrite (Honly _ _ Hy).
  - apply elem_of_cons in Hin as [->|Hin]; [congruence|].
    simpl. by rewrite (IH Hin).
Qed.

(** X6. [max_num_bonds] is at least 1, bounds the length of every incoming-edge
    list, and is 1 or the length of one of them. *)
Theorem max_num_bonds_bounds (a2b : list (list nat)) :
  a2b ≠ [] →
  ∃ m, max_num_bonds_of a2b = inr m
       ∧ 1 ≤ m
       ∧ Forall (λ row, length row ≤ m) a2b
       ∧ (m = 1 ∨ ∃ row, row ∈ a2b ∧ length row = m).
Proof.
  intros Hne. rewrite (max_num_bonds_of_spec a2b Hne).
  eexists. split; [done|]. split; [lia|]. split.
  - apply Forall_forall. intros row Hrow.
    assert (length row ≤ max_list (length <$> a2b)); [|lia].
    apply max_list_elem_of_le, list_elem_of_fmap. eauto.
  - destruct (decide (max_list (length <$> a2b) ≤ 1)) as [Hle|Hgt];
      [left; lia|right].
    assert (Hin : max_list (length <$> a2b) ∈ length <$> a2b).
    { apply max_list_elem_of. by destruct a2b. }
    apply list_elem_of_fmap in Hin as (row & Hlen & Hrow).
    exists row. split; [done|]. lia.
Qed.

Lemma max_num_bonds_bounds_witness :
  ∃ m, max_num_bonds_of [[]; [2]; [1]] = inr m
       ∧ 1 ≤ m
       ∧ Forall (λ row, length row ≤ m) [[]; [2]; [1]]
       ∧ (m = 1 ∨ ∃ row, row ∈ [[]; [2]; [1]] ∧ length row = m).
Proof. apply (max_num_bonds_bounds [[]; [2]; [1]]). discriminate. Defined.

(** ** Structure of the graphs the edge loops build *)

Lemma filter_ext_in {A} (P Q : A → Prop) `{∀ x, Decision (P x)}
    `{∀ x, Decision (Q x)} (l : list A) :
  (∀ x, x ∈ l → P x ↔ Q x) → filter P l = filter Q l.
Proof.
  induction l as [|x l IH]; intros Hext; [done|].
  rewrite !filter_cons.
  assert (Hx : P x ↔ Q x) by (apply Hext; left).
  rewrite IH by (intros y Hy; apply Hext; by right).
  destruct (decide (P x)), (decide (Q x)); tauto || done.
Qed.

(** The exact effect of lines 291-299. *)
Lemma update_index_mappings_full (a1 a2 : nat) (self g : MolGraph.t) :
  update_index_mappings a1 a2 self = inr g →
  ∃ r2 r1,
    MolGraph.a2b self !! a2 = Some r2
    ∧ <[a2 := r2 ++ [MolGraph.n_bonds self]]> (MolGraph.a2b self) !! a1
      = Some r1
    ∧ MolGraph.a2b g
      = <[a1 := r1 ++ [MolGraph.n_bonds self + 1]]>
          (<[a2 := r2 ++ [MolGraph.n_bonds self]]> (MolGraph.a2b self))
    ∧ MolGraph.f_atoms g = MolGraph.f_atoms self
    ∧ MolGraph.f_bonds g = MolGraph.f_bonds self.
Proof.
  unfold update_index_mappings, append_at. intros H.
  apply bind_inr in H as (rows1 & H1 & H).
  apply bind_inr in H1 as (r2 & Hr2 & [= <-]). simpl in H.
  apply bind_inr in H as (rows2 & H2 & H).
  apply bind_inr in H2 as (r1 & Hr1 & [= <-]).
  injection H as <-. simpl.
  unfold getitem in Hr2, Hr1.
  destruct (MolGraph.a2b self !! a2) as [r2'|] eqn:E2; [|discriminate].
  injection Hr2 as ->.
  destruct (_ !! a1) as [r1'|] eqn:E1; [|discriminate].
  injection Hr1 as ->.
  exists r2, r1. done.
Qed.

Lemma update_index_mappings_total (a1 a2 : nat) (self : MolGraph.t) :
  a1 < length (MolGraph.a2b self) → a2 < length (MolGraph.a2b self) →
  ∃ g, update_index_mappings a1 a2 self = inr g.
Proof.
  intros H1 H2. unfold update_index_mappings, append_at, getitem.
  destruct (lookup_lt_is_Some_2 _ _ H2) as [r2 ->]. simpl.
  destruct (lookup_lt_is_Some_2
              (<[a2 := r2 ++ [MolGraph.n_bonds self]]> (MolGraph.a2b self)) a1)
    as [r1 ->]; [by rewrite length_insert|].
  simpl. by eexists.
Qed.

(** The exact effect of lines 287-288. *)
Lemma append_edge_features_full (a1 a2 : nat) (f_bond : list Q)
    (self g : MolGraph.t) :
  append_edge_features a1 a2 f_bond self = inr g →
  ∃ f1 f2,
    MolGraph.f_atoms self !! a1 = Some f1
    ∧ MolGraph.f_atoms self !! a2 = Some f2
    ∧ MolGraph.f_bonds g
      = MolGraph.f_bonds self ++ [f1 ++ f_bond; f2 ++ f_bond]
    ∧ MolGraph.f_atoms g = MolGraph.f_atoms self.
Proof.
  unfold append_edge_features, getitem. intros H.
  destruct (MolGraph.f_atoms self !! a1) as [f1|] eqn:E1; [|discriminate].
  simpl in H.
  destruct (MolGraph.f_atoms self !! a2) as [f2|] eqn:E2; [|discriminate].
  injection H as <-. exists f1, f2. simpl.
  by rewrite <- app_assoc.
Qed.

Lemma append_edge_features_total (a1 a2 : nat) (f_bond : list Q)
    (self : MolGraph.t) :
  a1 < length (MolGraph.f_atoms self) → a2 < length (MolGraph.f_atoms self) →
  ∃ g, append_edge_features a1 a2 f_bond self = inr g.
Proof.
  intros H1 H2. unfold append_edge_features, getitem.
  destruct (lookup_lt_is_Some_2 _ _ H1) as [f1 ->]. simpl.
  destruct (lookup_lt_is_Some_2 _ _ H2) as [f2 E]. simpl in *. rewrite E.
  by eexists.
Qed.


Lemma molecule_edge_cases (mol : Mol) (bfe : option (list (list Q)))
    (ob : bool) (a1 a2 : nat) (self g : MolGraph.t) :
  molecule_edge mol bfe ob (a1, a2) self = inr g →
  (¬ bonded mol (a1, a2) ∧ g = self)
  ∨ (bonded mol (a1, a2) ∧ edge_added a1 a2 self g).
Proof.
  unfold molecule_edge, bonded, GetBondBetweenAtoms. intros Hrun.
  apply bind_inr in Hrun as (bond & Hbond & Hrun).
  case_bool_decide; [|discriminate]. injection Hbond as <-. simpl.
  destruct (list_find _ _) as [[idx bond]|].
  - right. split; [by eexists|].
    apply bind_inr in Hrun as (fb & _ & Hrun).
    apply bind_inr in Hrun as (fb' & _ & Hrun).
    apply bind_inr in Hrun as (s & Hs & Hrun).
    by exists fb', s.
  - left. split; [by intros [? ?]|]. by injection Hrun as <-.
Qed.

Lemma reaction_edge_cases (mol_reac mol_prod : Mol) (ri2pi : gmap nat nat)
    (pio : list nat) (n_atoms_reac a1 a2 : nat) (self g : MolGraph.t) :
  reaction_edge mol_reac mol_prod ri2pi pio n_atoms_reac (a1, a2) self = inr g →
  g = self ∨ edge_added a1 a2 self g.
Proof.
  unfold reaction_edge. intros Hrun.
  apply bind_inr in Hrun as ([br bp] & _ & Hrun).
  destruct br as [br|], bp as [bp|];
    try (left; by injection Hrun as <-);
    right;
    apply bind_inr in Hrun as (fr & _ & Hrun);
    apply bind_inr in Hrun as (fp & _ & Hrun);
    apply bind_inr in Hrun as (fb & _ & Hrun);
    apply bind_inr in Hrun as (s & Hs & Hrun);
    by exists fb, s.
Qed.

Lemma paired_reverse_lt (g : MolGraph.t) (b r : nat) :
  paired g → MolGraph.b2revb g !! b = Some r →
  b < MolGraph.n_bonds g ∧ r < MolGraph.n_bonds g.
Proof.
  intros (Hla & Hlr & Hrev) Hb.
  assert (Hlt : b < MolGraph.n_bonds g)
    by (rewrite <- Hlr; by eapply lookup_lt_Some).
  split; [done|].
  destruct (Hrev b Hlt) as (r' & x & y & Hbr & Hrb & _).
  rewrite Hb in Hbr. injection Hbr as <-.
  rewrite <- Hlr. by eapply lookup_lt_Some.
Qed.

Lemma fresh_edges_ok (self : MolGraph.t) : fresh self → edges_ok self.
Proof.
  intros (Hno & Hfb & Ha2b). split; [by apply no_edges_paired|].
  destruct Hno as (Hn & Hb2a & Hrev). split.
  - intros a row Hrow. rewrite Ha2b in Hrow.
    apply lookup_replicate in Hrow as [-> _]. by rewrite Hn.
  - split; [by rewrite Hfb, Hn|].
    intros b r x y Hb. by rewrite Hrev in Hb.
Qed.

Lemma edge_added_edges_ok (a1 a2 : nat) (self g : MolGraph.t) :
  a1 ≠ a2 → edges_ok self → edge_added a1 a2 self g → edges_ok g.
Proof.
  intros Hne (Hp & Hin & Hlen & Hrows) (fb & s & Hfeat & Hupd).
  pose proof (append_edge_features_inr _ _ _ _ _ Hfeat)
    as (Sn & Sb2a & Srev & Sna & Sa2b).
  pose proof (append_edge_features_full _ _ _ _ _ Hfeat)
    as (f1 & f2 & Hf1 & Hf2 & Sfb & Sfa).
  pose proof (update_index_mappings_inr _ _ _ _ Hupd)
    as (Gn & Gb2a & Grev & Gna & Gla).
  pose proof (update_index_mappings_full _ _ _ _ Hupd)
    as (r2 & r1 & Hr2 & Hr1 & Ga2b & Gfa & Gfb).
  rewrite list_lookup_insert_ne in Hr1 by done.
  rewrite Sn in Gn. rewrite Sb2a in Gb2a. rewrite Srev, Sn in Grev.
  rewrite Sa2b in Hr2. rewrite Sa2b in Hr1. rewrite Sa2b, Sn in Ga2b.
  rewrite Sfa in Gfa. rewrite Sfb in Gfb.
  assert (Hpg : paired g).
  { eapply update_index_mappings_paired; [exact Hne| |exact Hupd].
    by eapply paired_ext. }
  pose proof Hp as (Hla & Hlr & _).
  set (n := MolGraph.n_bonds self) in *.
  (* destinations of the old and the two new edges *)
  assert (Hold : ∀ b, b < n → destination g b = destination self b).
  { intros b Hb. unfold destination. rewrite Grev, Gb2a.
    rewrite lookup_app_l by lia.
    destruct (MolGraph.b2revb self !! b) as [r|] eqn:Er; [|done]. simpl.
    destruct (paired_reverse_lt _ _ _ Hp Er) as [_ Hr].
    by rewrite lookup_app_l by (fold n in Hr; lia). }
  assert (Hn0 : destination g n = Some a2).
  { unfold destination. rewrite Grev, Gb2a.
    rewrite lookup_app_r by lia. rewrite Hlr.
    replace (n - n) with 0 by lia. simpl.
    rewrite lookup_app_r by lia. rewrite Hla.
    by replace (n + 1 - n) with 1 by lia. }
  assert (Hn1 : destination g (n + 1) = Some a1).
  { unfold destination. rewrite Grev, Gb2a.
    rewrite lookup_app_r by lia. rewrite Hlr.
    replace (n + 1 - n) with 1 by lia. simpl.
    rewrite lookup_app_r by lia. rewrite Hla.
    by replace (n - n) with 0 by lia. }
  split; [done|]. split.
  - (* incoming *)
    intros a row Hrow. rewrite Gn.
    replace (n + 2) with (S (S n)) by lia.
    rewrite !seq_S, <- app_assoc, filter_app. simpl.
    rewrite (filter_ext_in _ (λ b, destination self b = Some a) (seq 0 n))
      by (intros b Hb; apply elem_of_seq in Hb; rewrite Hold by lia; done).
    rewrite !filter_cons, filter_nil.
    replace (S n) with (n + 1) by lia. rewrite Hn0, Hn1.
    rewrite Ga2b in Hrow.
    destruct (decide (a = a1)) as [->|Hna1].
    + rewrite list_lookup_insert_eq in Hrow
        by (rewrite length_insert; by eapply lookup_lt_Some).
      injection Hrow as <-.
      rewrite decide_False by congruence. rewrite decide_True by done.
      by rewrite (Hin _ _ Hr1).
    + rewrite list_lookup_insert_ne in Hrow by done.
      destruct (decide (a = a2)) as [->|Hna2].
      * rewrite list_lookup_insert_eq in Hrow by (by eapply lookup_lt_Some).
        injection Hrow as <-.
        rewrite decide_True by done. rewrite decide_False by congruence.
        by rewrite (Hin _ _ Hr2).
      * rewrite list_lookup_insert_ne in Hrow by done.
        rewrite decide_False by congruence. rewrite decide_False by congruence.
        rewrite app_nil_r. by apply Hin.
  - (* edge rows *)
    split; [rewrite Gfb, Gn, length_app; simpl; lia|].
    intros b r x y Hb Hx Hy.
    rewrite Grev in Hb. rewrite Gb2a in Hx, Hy. rewrite Gfa, Gfb.
    apply lookup_app_Some in Hb as [Hb|[Hge Hb]].
    + destruct (paired_reverse_lt _ _ _ Hp Hb) as [Hbn Hrn]. fold n in Hbn, Hrn.
      rewrite lookup_app_l in Hx by lia. rewrite lookup_app_l in Hy by lia.
      destruct (Hrows b r x y Hb Hx Hy) as (fx & fy & t & E1 & E2 & E3 & E4).
      exists fx, fy, t. split; [done|]. split; [done|].
      split; by apply lookup_app_l_Some.
    + rewrite Hlr in Hge, Hb.
      destruct (b - n) as [|[|k]] eqn:Ek; simpl in Hb; [| |done].
      * injection Hb as <-. assert (b = n) as -> by lia.
        rewrite lookup_app_r in Hx by lia. rewrite lookup_app_r in Hy by lia.
        rewrite Hla in Hx, Hy.
        replace (n - n) with 0 in Hx by lia.
        replace (n + 1 - n) with 1 in Hy by lia.
        injection Hx as <-. injection Hy as <-.
        exists f1, f2, fb. split; [done|]. split; [done|].
        rewrite !lookup_app_r by lia. rewrite Hlen.
        replace (n - n) with 0 by lia. replace (n + 1 - n) with 1 by lia.
        done.
      * injection Hb as <-. assert (b = n + 1) as -> by lia.
        rewrite lookup_app_r in Hx by lia. rewrite lookup_app_r in Hy by lia.
        rewrite Hla in Hx, Hy.
        replace (n + 1 - n) with 1 in Hx by lia.
        replace (n - n) with 0 in Hy by lia.
        injection Hx as <-. injection Hy as <-.
        exists f2, f1, fb. split; [done|]. split; [done|].
        rewrite !lookup_app_r by lia. rewrite Hlen.
        replace (n - n) with 0 by lia. replace (n + 1 - n) with 1 by lia.
        done.
Qed.

Lemma edge_added_atoms (a1 a2 : nat) (self g : MolGraph.t) :
  edge_added a1 a2 self g →
  MolGraph.f_atoms g = MolGraph.f_atoms self
  ∧ MolGraph.n_atoms g = MolGraph.n_atoms self.
Proof.
  intros (fb & s & Hfeat & Hupd).
  pose proof (append_edge_features_inr _ _ _ _ _ Hfeat) as (_ & _ & _ & Sna & _).
  pose proof (append_edge_features_full _ _ _ _ _ Hfeat)
    as (f1 & f2 & _ & _ & _ & Sfa).
  pose proof (update_index_mappings_inr _ _ _ _ Hupd) as (_ & _ & _ & Gna & _).
  pose proof (update_index_mappings_full _ _ _ _ Hupd)
    as (r2 & r1 & _ & _ & _ & Gfa & _).
  split; congruence.
Qed.

Lemma edge_loop_edges_ok (self g : MolGraph.t) :
  edges_ok self → edge_loop self g →
  edges_ok g
  ∧ MolGraph.f_atoms g = MolGraph.f_atoms self
  ∧ MolGraph.n_atoms g = MolGraph.n_atoms self.
Proof.
  intros Hok Hrun.
  set (P := λ s, edges_ok s
                 ∧ MolGraph.f_atoms s = MolGraph.f_atoms self
                 ∧ MolGraph.n_atoms s = MolGraph.n_atoms self).
  assert (Hstep : ∀ a1 a2 s s', a1 < a2 → P s →
            s' = s ∨ edge_added a1 a2 s s' → P s').
  { intros a1 a2 s s' Hlt (Hs & Hfa & Hna) [->|Hadd]; [done|].
    destruct (edge_added_atoms _ _ _ _ Hadd) as [E1 E2].
    split; [eapply edge_added_edges_ok; [|exact Hs|exact Hadd]; lia|].
    split; congruence. }
  assert (HP : P self) by done.
  destruct Hrun as [mol bfe ob Hrun|mol_reac mol_prod ri2pi pio n Hrun].
  - unfold molecule_edges in Hrun.
    eapply (for_each_invariant P (λ p, p.1 < p.2)); [| |exact HP|exact Hrun].
    + intros [a1 a2] s s' Hlt Hs Hbody. simpl in Hlt.
      apply molecule_edge_cases in Hbody as [[_ ->]|[_ Hadd]]; [done|].
      eapply Hstep; eauto.
    + eapply Forall_impl; [apply atom_pairs_ordered|]. simpl. lia.
  - unfold reaction_edges in Hrun.
    eapply (for_each_invariant P (λ p, p.1 < p.2)); [| |exact HP|exact Hrun].
    + intros [a1 a2] s s' Hlt Hs Hbody. simpl in Hlt.
      apply reaction_edge_cases in Hbody as [->|Hadd]; [done|].
      eapply Hstep; eauto.
    + eapply Forall_impl; [apply atom_pairs_ordered|]. simpl. lia.
Qed.

(** X21. In a graph built by either edge loop, the incoming-edge list of every
    atom is exactly the list of the edges whose destination (the origin of
    the reverse edge) is that atom, each edge once and in increasing
    order. *)
Theorem incoming_edges_by_destination (self g : MolGraph.t) (a : nat)
    (row : list nat) :
  fresh self → edge_loop self g →
  MolGraph.a2b g !! a = Some row →
  row = filter (λ b, destination g b = Some a) (seq 0 (MolGraph.n_bonds g)).
Proof.
  intros Hfresh Hrun.
  destruct (edge_loop_edges_ok self g (fresh_edges_ok _ Hfresh) Hrun)
    as ((_ & Hin & _) & _).
  apply Hin.
Qed.

(** X22. In a graph built by either edge loop the atom rows are those the loop
    was entered with, there is one edge row per edge, the row of an edge is
    the atom row of its origin followed by a bond vector, and an edge and
    its reverse carry the same bond vector. *)
Theorem edge_rows_share_bond_vector (self g : MolGraph.t) :
  fresh self → edge_loop self g →
  MolGraph.f_atoms g = MolGraph.f_atoms self
  ∧ MolGraph.n_atoms g = MolGraph.n_atoms self
  ∧ length (MolGraph.f_bonds g) = MolGraph.n_bonds g
  ∧ ∀ b r x y,
      MolGraph.b2revb g !! b = Some r →
      MolGraph.b2a g !! b = Some x →
      MolGraph.b2a g !! r = Some y →
      ∃ fx fy f_bond,
        MolGraph.f_atoms g !! x = Some fx
        ∧ MolGraph.f_atoms g !! y = Some fy
        ∧ MolGraph.f_bonds g !! b = Some (fx ++ f_bond)
        ∧ MolGraph.f_bonds g !! r = Some (fy ++ f_bond).
Proof.
  intros Hfresh Hrun.
  destruct (edge_loop_edges_ok self g (fresh_edges_ok _ Hfresh) Hrun)
    as ((_ & _ & Hlen & Hrows) & Hfa & Hna).
  done.
Qed.

(** ** The molecule loop returns, with two edges per bond *)

Lemma molecule_edge_total (mol : Mol) (bfe : option (list (list Q)))
    (ob : bool) (N a1 a2 : nat) (self : MolGraph.t) :
  N ≤ GetNumAtoms mol →
  (∀ extra, bfe = Some extra → length (GetBonds mol) ≤ length extra) →
  a1 < N → a2 < N → covers N self →
  ∃ g, molecule_edge mol bfe ob (a1, a2) self = inr g
       ∧ covers N g
       ∧ MolGraph.n_bonds g
         = MolGraph.n_bonds self
           + (if decide (bonded mol (a1, a2)) then 2 else 0).
Proof.
  intros HN Hextra H1 H2 (Hn & Hfa & Ha2b).
  unfold molecule_edge, GetBondBetweenAtoms.
  rewrite bool_decide_eq_true_2 by lia.
  cbn -[bond_features getitem append_edge_features update_index_mappings].
  destruct (decide (bonded mol (a1, a2))) as [Hb|Hb]; unfold bonded in Hb;
    simpl in Hb.
  - destruct Hb as [[idx bond] Hfind]. rewrite Hfind.
    destruct (bond_features_total (Some bond)) as (fb & -> & _).
    cbn [mbind result_bind sum_rect].
    assert (Hdescr : ∃ fb',
      match bfe with
      | None => ret fb
      | Some extra => descr ← getitem extra idx; if ob then ret descr else ret descr
      end = inr fb').
    { destruct bfe as [extra|]; [|by eexists].
      apply list_find_Some in Hfind as (Hidx & _).
      apply lookup_lt_Some in Hidx.
      destruct (lookup_lt_is_Some_2 extra idx) as [d Hd];
        [specialize (Hextra extra eq_refl); lia|].
      unfold getitem. rewrite Hd. simpl. exists d. by destruct ob. }
    destruct Hdescr as (fb' & ->). cbn [mbind result_bind sum_rect].
    destruct (append_edge_features_total a1 a2 fb' self) as [s Hs]; [lia..|].
    rewrite Hs. cbn [mbind result_bind sum_rect].
    pose proof (append_edge_features_inr _ _ _ _ _ Hs)
      as (Snb & _ & _ & Sna & Sa2b).
    pose proof (append_edge_features_full _ _ _ _ _ Hs)
      as (f1 & f2 & _ & _ & _ & Sfa).
    destruct (update_index_mappings_total a1 a2 s) as [g Hg];
      [rewrite Sa2b; lia..|].
    pose proof (update_index_mappings_inr _ _ _ _ Hg)
      as (Gnb & _ & _ & Gna & Ga2b).
    pose proof (update_index_mappings_full _ _ _ _ Hg)
      as (r2 & r1 & _ & _ & _ & Gfa & _).
    exists g. split; [done|]. split; [|lia].
    unfold covers. rewrite Gna, Sna, Gfa, Sfa, Ga2b, Sa2b. done.
  - destruct (list_find _ _) as [p|] eqn:Hfind; [by destruct Hb; eexists|].
    exists self. simpl. split; [done|]. split; [done|lia].
Qed.

Lemma for_each_counted {A S} (P : S → Prop) (Q : A → Prop) (c : A → Prop)
    `{∀ x, Decision (c x)} (m : S → nat) (body : A → S → result S)
    (xs : list A) (st : S) :
  (∀ x s, Q x → P s →
     ∃ s', body x s = inr s' ∧ P s'
           ∧ m s' = m s + (if decide (c x) then 2 else 0)) →
  Forall Q xs → P st →
  ∃ st', for_each body xs st = inr st' ∧ P st'
         ∧ m st' = m st + 2 * length (filter c xs).
Proof.
  intros Hbody HQ. revert st.
  induction HQ as [|x xs Hx _ IH]; intros st HP.
  - exists st. simpl. split; [done|]. split; [done|lia].
  - destruct (Hbody x st Hx HP) as (s & Hs & HPs & Hm).
    destruct (IH s HPs) as (st' & Hrun & HP' & Hm').
    exists st'. simpl. rewrite Hs. split; [done|]. split; [done|].
    rewrite filter_cons. destruct (decide (c x)); simpl; lia.
Qed.

Lemma molecule_edges_counted (mol : Mol) (bfe : option (list (list Q)))
    (ob : bool) (self : MolGraph.t) :
  MolGraph.n_atoms self ≤ GetNumAtoms mol →
  MolGraph.n_atoms self ≤ length (MolGraph.f_atoms self) →
  MolGraph.n_atoms self ≤ length (MolGraph.a2b self) →
  (∀ extra, bfe = Some extra → length (GetBonds mol) ≤ length extra) →
  ∃ g, molecule_edges mol bfe ob self = inr g
       ∧ MolGraph.n_atoms g = MolGraph.n_atoms self
       ∧ MolGraph.n_bonds g
         = MolGraph.n_bonds self
           + 2 * length (filter (bonded mol)
                           (atom_pairs (MolGraph.n_atoms self))).
Proof.
  intros HN Hfa Ha2b Hextra. unfold molecule_edges.
  destruct (for_each_counted (covers (MolGraph.n_atoms self))
              (λ p, p.1 < p.2 < MolGraph.n_atoms self) (bonded mol)
              MolGraph.n_bonds (molecule_edge mol bfe ob)
              (atom_pairs (MolGraph.n_atoms self)) self)
    as (g & Hrun & (Hn & _) & Hcount).
  - intros [a1 a2] s Hlt Hs. simpl in Hlt.
    apply molecule_edge_total; try done; lia.
  - apply atom_pairs_ordered.
  - done.
  - by exists g.
Qed.

(** The pairs the loops visit: each pair [a1 < a2 < n] once. *)
Lemma elem_of_atom_pairs (n : nat) (p : nat * nat) :
  p ∈ atom_pairs n ↔ p.1 < p.2 < n.
Proof.
  split.
  - intros Hin. pose proof (atom_pairs_ordered n) as Hall.
    rewrite Forall_forall in Hall. by apply Hall.
  - destruct p as [a1 a2]. simpl. intros Hlt.
    apply list_elem_of_In, in_flat_map. exists a1. split.
    + apply in_seq. lia.
    + apply list_elem_of_In, list_elem_of_fmap. exists a2. split; [done|].
      apply elem_of_seq. lia.
Qed.

Lemma NoDup_atom_pairs (n : nat) : NoDup (atom_pairs n).
Proof.
  unfold atom_pairs. generalize n at 1. intros m.
  assert (Hgen : ∀ l : list nat, NoDup l →
            NoDup (flat_map (λ a1, pair a1 <$> seq (a1 + 1) (m - (a1 + 1))) l)).
  { induction 1 as [|a l Ha Hl IH]; simpl; [constructor|].
    apply NoDup_app. split; [|split; [|done]].
    - apply NoDup_fmap_2; [|apply NoDup_seq]. by intros x y [= ->].
    - intros [x y] Hin1 Hin2.
      apply list_elem_of_fmap in Hin1 as (y' & [= -> ->] & _).
      apply list_elem_of_In, in_flat_map in Hin2 as (a' & Ha' & Hin2).
      apply list_elem_of_In, list_elem_of_fmap in Hin2 as (y'' & [= -> ->] & _).
      apply Ha. by apply list_elem_of_In. }
  apply Hgen, NoDup_seq.
Qed.

Lemma joins_ends (a1 a2 : nat) (b : Bond) :
  a1 < a2 → joins a1 a2 b = true ↔ ends b = (a1, a2).
Proof.
  intros Hlt. unfold joins, ends. rewrite orb_true_iff, !bool_decide_eq_true.
  split.
  - intros [[<- <-]|[<- <-]]; f_equal; lia.
  - intros [= H1 H2]. lia.
Qed.

Lemma bonded_ends (mol : Mol) (p : nat * nat) :
  p.1 < p.2 → bonded mol p ↔ p ∈ ends <$> GetBonds mol.
Proof.
  destruct p as [a1 a2]. simpl. intros Hlt. unfold bonded. simpl. split.
  - intros [[idx b] Hfind].
    apply list_find_Some in Hfind as (Hidx & Hj & _).
    apply list_elem_of_fmap. exists b. split.
    + symmetry. by apply joins_ends.
    + by eapply list_elem_of_lookup_2.
  - intros Hin. apply list_elem_of_fmap in Hin as (b & Hb & Hin).
    destruct (list_find (λ b, joins a1 a2 b = true) (GetBonds mol)) eqn:Hfind;
      [by eexists|].
    apply list_find_None in Hfind. rewrite Forall_forall in Hfind.
    destruct (Hfind b Hin). by apply joins_ends.
Qed.

Lemma bonded_pairs_count (mol : Mol) :
  wf_mol mol →
  length (filter (bonded mol) (atom_pairs (GetNumAtoms mol)))
  = length (GetBonds mol).
Proof.
  intros (Hall & Hnodup).
  rewrite <- (length_fmap ends (GetBonds mol)).
  apply Permutation_length, NoDup_Permutation;
    [apply NoDup_filter, NoDup_atom_pairs|done|].
  intros p. rewrite list_elem_of_filter, elem_of_atom_pairs. split.
  - intros [Hb Hlt]. apply bonded_ends; [lia|done].
  - intros Hin. assert (Hlt : p.1 < p.2 < GetNumAtoms mol).
    { apply list_elem_of_fmap in Hin as (b & -> & Hin).
      rewrite Forall_forall in Hall. destruct (Hall b Hin) as (? & ? & ?).
      unfold ends. simpl. lia. }
    split; [|done]. apply bonded_ends; [lia|done].
Qed.

(** X23. On a molecule whose bonds join different atoms of the molecule, no two
    the same pair, the edge loop of the molecule branch returns when it is
    entered with the molecule's atom count and (if extra bond features are
    given) with at least one extra row per bond; it leaves two directed
    edges for every bond of the molecule. *)
Theorem molecule_edges_two_per_bond (mol : Mol)
    (bfe : option (list (list Q))) (ob : bool) (self : MolGraph.t) :
  wf_mol mol → fresh self →
  MolGraph.n_atoms self = GetNumAtoms mol →
  GetNumAtoms mol ≤ length (MolGraph.f_atoms self) →
  (∀ extra, bfe = Some extra → length (GetBonds mol) ≤ length extra) →
  ∃ g, molecule_edges mol bfe ob self = inr g
       ∧ MolGraph.n_atoms g = GetNumAtoms mol
       ∧ MolGraph.n_bonds g = 2 * length (GetBonds mol).
Proof.
  intros Hwf ((Hnb & _) & _ & Ha2b) Hn Hfa Hextra.
  destruct (molecule_edges_counted mol bfe ob self)
    as (g & Hrun & Gn & Gnb); try done.
  - lia.
  - lia.
  - rewrite Ha2b, length_replicate. lia.
  - exists g. split; [done|]. split; [congruence|].
    rewrite Gnb, Hnb, Hn, bonded_pairs_count by done. lia.
Qed.

(** ** The collated batch *)

Lemma place_all_rows (gs : list MolGraph.t) (st st' : Frame.t) :
  Forall rows_match gs → place_all gs st = inr st' →
  length (Frame.f_atoms st')
  = length (Frame.f_atoms st) + sum_list (MolGraph.n_atoms <$> gs)
  ∧ length (Frame.f_bonds st')
    = length (Frame.f_bonds st) + sum_list (MolGraph.n_bonds <$> gs).
Proof.
  intros Hrows. revert st.
  induction Hrows as [|g gs [Ha Hb] _ IH]; intros st Hrun.
  - injection Hrun as <-. simpl. lia.
  - unfold place_all in *. simpl in Hrun.
    apply bind_inr in Hrun as (s1 & Hg & Hrest).
    destruct (place_inr g st (place_inr_wf _ _ _ Hg)) as (s1' & Hg' & P).
    rewrite Hg in Hg'. injection Hg' as <-.
    destruct P as (_ & _ & _ & _ & _ & _ & _ & Efa & Efb).
    destruct (IH s1 Hrest) as [-> ->].
    rewrite Efa, Efb, !length_app, !fmap_cons.
    cbn [sum_list_with length]. unfold id. lia.
Qed.

Lemma take_drop_middle_app {A} (l1 l2 l : list A) (n m : nat) :
  (l1 ++ l2) `prefix_of` l → n = length l1 → m = length l2 →
  take m (drop n l) = l2.
Proof.
  intros [k ->] -> ->. rewrite <- app_assoc, drop_app_length.
  by rewrite take_app_length.
Qed.

(** X24. The scopes the collator records select each molecule's own feature
    rows: in a batch of graphs with one row per atom and per edge, the slice
    of the batch's atom rows (edge rows) that starts at the molecule's scope
    start and has its scope size is the molecule's list of atom rows (edge
    rows), and row 0 is the padding row. *)
Theorem scopes_select_rows (pre post : list MolGraph.t) (g : MolGraph.t)
    (atom_row bond_row : list Q) :
  Forall wf_graph (pre ++ g :: post) → Forall rows_match (pre ++ [g]) →
  ∃ st a_start a_size b_start b_size,
    place_all (pre ++ g :: post) (first_frame atom_row bond_row) = inr st
    ∧ Frame.a_scope st !! length pre = Some (a_start, a_size)
    ∧ Frame.b_scope st !! length pre = Some (b_start, b_size)
    ∧ take a_size (drop a_start (Frame.f_atoms st)) = MolGraph.f_atoms g
    ∧ take b_size (drop b_start (Frame.f_bonds st)) = MolGraph.f_bonds g
    ∧ Frame.f_atoms st !! 0 = Some atom_row
    ∧ Frame.f_bonds st !! 0 = Some bond_row.
Proof.
  intros Hwf Hrows. apply Forall_app in Hwf as [Hpre Hrest].
  apply Forall_cons in Hrest as [Hg Hpost].
  apply Forall_app in Hrows as [Rpre Rg].
  apply Forall_singleton in Rg as [Rga Rgb].
  destruct (place_all_inr pre _ Hpre (first_frame_ok atom_row bond_row))
    as (s1 & R1 & Ok1 & Ext1 & Na1 & Nb1 & Sa1 & Sb1).
  destruct (place_all_rows _ _ _ Rpre R1) as [Fa1 Fb1].
  destruct (place_inr g s1 Hg) as (s2 & R2 & P2).
  destruct (place_all_inr post s2 Hpost
              (placed_after_frame_ok _ _ _ Hg Ok1 P2))
    as (s3 & R3 & _ & Ext & _).
  simpl in Na1, Nb1, Sa1, Sb1, Fa1, Fb1.
  destruct P2 as (_ & _ & _ & _ & _ & Esa & Esb & Efa & Efb).
  destruct Ext as (_ & _ & _ & Xsa & Xsb & Xfa & Xfb).
  destruct Ext1 as (_ & _ & _ & _ & _ & Yfa & Yfb).
  exists s3, (Frame.n_atoms s1), (MolGraph.n_atoms g),
    (Frame.n_bonds s1), (MolGraph.n_bonds g).
  split.
  { unfold place_all in *. rewrite for_each_app, R1. simpl. by rewrite R2. }
  split.
  { eapply prefix_lookup_Some; [|exact Xsa].
    rewrite Esa, lookup_app_r by lia.
    by replace (length pre - length (Frame.a_scope s1)) with 0 by lia. }
  split.
  { eapply prefix_lookup_Some; [|exact Xsb].
    rewrite Esb, lookup_app_r by lia.
    by replace (length pre - length (Frame.b_scope s1)) with 0 by lia. }
  rewrite Efa in Xfa. rewrite Efb in Xfb.
  split; [eapply take_drop_middle_app; [exact Xfa|lia|lia]|].
  split; [eapply take_drop_middle_app; [exact Xfb|lia|lia]|].
  split.
  - eapply prefix_lookup_Some; [|exact Xfa].
    apply lookup_app_l_Some. by eapply prefix_lookup_Some; [|exact Yfa].
  - eapply prefix_lookup_Some; [|exact Xfb].
    apply lookup_app_l_Some. by eapply prefix_lookup_Some; [|exact Yfb].
Qed.

Lemma lookup_placed_at {A B} (f : A → B) (base : list B) (l : list A)
    (n k i : nat) (x : A) :
  length base = k → l !! i = Some x → i < n →
  (base ++ (f <$> take n l)) !! (k + i) = Some (f x).
Proof. intros <-. apply lookup_placed. Qed.

Lemma placed_after_batch_paired (g : MolGraph.t) (st st' : Frame.t) :
  paired g → frame_ok st → 1 ≤ Frame.n_bonds st → placed_after g st st' →
  batch_paired st → batch_paired st'.
Proof.
  intros Hp (_ & Lb & Lr) Hone (_ & Enb & _ & Eb & Er & _) Hst e [Hpos Hlt].
  destruct (decide (e < Frame.n_bonds st)) as [Hold|Hnew].
  - destruct (Hst e) as (r & x & y & H1 & H2 & H3 & H4 & Hxy & Hr); [lia|].
    exists r, x, y. rewrite Eb, Er.
    repeat split; try done; by apply lookup_app_l_Some.
  - destruct Hp as (Pa & Pr & Hrev).
    assert (He : ∃ b, e = Frame.n_bonds st + b ∧ b < MolGraph.n_bonds g)
      by (exists (e - Frame.n_bonds st); lia).
    destruct He as (b & -> & Hb).
    destruct (Hrev b Hb) as (r & x & y & H1 & H2 & H3 & H4 & Hxy).
    assert (Hr : r < MolGraph.n_bonds g)
      by (rewrite <- Pa; by eapply lookup_lt_Some).
    exists (Frame.n_bonds st + r), (Frame.n_atoms st + x), (Frame.n_atoms st + y).
    rewrite Eb, Er.
    split; [by apply (lookup_placed_at (λ r, Frame.n_bonds st + r))|].
    split; [by apply (lookup_placed_at (λ r, Frame.n_bonds st + r))|].
    split; [by apply (lookup_placed_at (λ x, Frame.n_atoms st + x))|].
    split; [by apply (lookup_placed_at (λ x, Frame.n_atoms st + x))|].
    lia.
Qed.

Lemma place_all_batch_paired (gs : list MolGraph.t) (st st' : Frame.t) :
  Forall paired gs → frame_ok st → 1 ≤ Frame.n_bonds st → batch_paired st →
  place_all gs st = inr st' → batch_paired st'.
Proof.
  intros Hgs. revert st.
  induction Hgs as [|g gs Hg _ IH]; intros st Hok Hone Hst Hrun.
  - by injection Hrun as <-.
  - unfold place_all in *. simpl in Hrun.
    apply bind_inr in Hrun as (s1 & Hrun & Hrest).
    pose proof (place_inr_wf _ _ _ Hrun) as Hwf.
    destruct (place_inr g st Hwf) as (s1' & Hrun' & P).
    rewrite Hrun in Hrun'. injection Hrun' as <-.
    eapply IH; [| | |exact Hrest].
    + by eapply placed_after_frame_ok.
    + destruct P as (_ & -> & _). lia.
    + by eapply placed_after_batch_paired.
Qed.

(** X25. In a batch collated from graphs whose edges are reverse paired, every
    edge after the padding edge has a reverse edge in the batch that is not
    the padding edge, points back at it and starts at another atom; the
    padding edge is its own reverse and starts at the padding atom. *)
Theorem batch_reverse_edges (gs : list MolGraph.t)
    (atom_row bond_row : list Q) (st : Frame.t) :
  Forall paired gs →
  place_all gs (first_frame atom_row bond_row) = inr st →
  Frame.b2revb st !! 0 = Some 0
  ∧ Frame.b2a st !! 0 = Some 0
  ∧ ∀ e, 1 ≤ e < Frame.n_bonds st →
      ∃ r x y, Frame.b2revb st !! e = Some r
               ∧ Frame.b2revb st !! r = Some e
               ∧ Frame.b2a st !! e = Some x
               ∧ Frame.b2a st !! r = Some y
               ∧ x ≠ y ∧ 1 ≤ r.
Proof.
  intros Hgs Hrun.
  assert (Hwf : Forall wf_graph gs).
  { clear Hgs. revert Hrun. generalize (first_frame atom_row bond_row).
    induction gs as [|g gs IH]; intros s Hrun; [done|].
    unfold place_all in *. simpl in Hrun.
    apply bind_inr in Hrun as (s1 & Hg & Hrest).
    constructor; [by eapply place_inr_wf|by eapply IH]. }
  destruct (place_all_inr gs _ Hwf (first_frame_ok atom_row bond_row))
    as (st' & Hrun' & _ & (_ & Xb & Xr & _) & _).
  rewrite Hrun in Hrun'. injection Hrun' as <-.
  split; [by eapply prefix_lookup_Some; [|exact Xr]|].
  split; [by eapply prefix_lookup_Some; [|exact Xb]|].
  eapply place_all_batch_paired;
    [exact Hgs|apply first_frame_ok|done| |exact Hrun].
  intros e [H1 H2]. simpl in H2. lia.
Qed.

(** ** From the edge loops to the batch *)

Lemma filter_none {A} (P : A → Prop) `{∀ x, Decision (P x)} (l : list A) :
  (∀ x, x ∈ l → ¬ P x) → filter P l = [].
Proof.
  induction l as [|x l IH]; intros Hl; [done|].
  rewrite filter_cons, decide_False by (apply Hl; left).
  apply IH. intros y Hy. apply Hl. by right.
Qed.

Lemma filter_fmap_shift {A B} (f : A → B) (P : B → Prop) (Q : A → Prop)
    `{∀ x, Decision (P x)} `{∀ x, Decision (Q x)} (l : list A) :
  (∀ x, x ∈ l → P (f x) ↔ Q x) → filter P (f <$> l) = f <$> filter Q l.
Proof.
  induction l as [|x l IH]; intros Hl; [done|].
  rewrite fmap_cons, !filter_cons.
  assert (Hx : P (f x) ↔ Q x) by (apply Hl; left).
  rewrite IH by (intros y Hy; apply Hl; by right).
  destruct (decide (P (f x))), (decide (Q x)); tauto || done.
Qed.

Lemma seq_shift_fmap (j n : nat) : seq j n = (λ b, b + j) <$> seq 0 n.
Proof.
  rewrite <- (Nat.add_0_r j) at 1. rewrite <- fmap_add_seq.
  apply list_fmap_ext. intros; lia.
Qed.

Lemma edge_added_origins (a1 a2 : nat) (self g : MolGraph.t) :
  edge_added a1 a2 self g →
  length (MolGraph.a2b self) = MolGraph.n_atoms self →
  Forall (λ x, x < MolGraph.n_atoms self) (MolGraph.b2a self) →
  length (MolGraph.a2b g) = MolGraph.n_atoms g
  ∧ Forall (λ x, x < MolGraph.n_atoms g) (MolGraph.b2a g).
Proof.
  intros (fb & s & Hfeat & Hupd) Hlen Hall.
  pose proof (append_edge_features_inr _ _ _ _ _ Hfeat)
    as (_ & Sb2a & _ & Sna & Sa2b).
  pose proof (update_index_mappings_inr _ _ _ _ Hupd)
    as (_ & Gb2a & _ & Gna & Gla).
  pose proof (update_index_mappings_full _ _ _ _ Hupd)
    as (r2 & r1 & Hr2 & Hr1 & _).
  apply lookup_lt_Some in Hr2, Hr1. rewrite length_insert in Hr1.
  rewrite Sa2b in Hr1, Hr2, Gla.
  rewrite Gla, Gna, Sna, Gb2a, Sb2a. split; [done|].
  apply Forall_app. split; [done|].
  repeat constructor; lia.
Qed.

Lemma edge_loop_origins (self g : MolGraph.t) :
  fresh self → edge_loop self g →
  length (MolGraph.a2b g) = MolGraph.n_atoms g
  ∧ Forall (λ x, x < MolGraph.n_atoms g) (MolGraph.b2a g).
Proof.
  intros ((_ & Hb2a & _) & _ & Ha2b) Hrun.
  set (P := λ s : MolGraph.t,
              length (MolGraph.a2b s) = MolGraph.n_atoms s
              ∧ Forall (λ x, x < MolGraph.n_atoms s) (MolGraph.b2a s)).
  assert (HP : P self).
  { split; [by rewrite Ha2b, length_replicate|]. rewrite Hb2a. constructor. }
  assert (Hstep : ∀ a1 a2 s s', P s → s' = s ∨ edge_added a1 a2 s s' → P s').
  { intros a1 a2 s s' [H1 H2] [->|Hadd]; [done|].
    by eapply edge_added_origins. }
  destruct Hrun as [mol bfe ob Hrun|mol_reac mol_prod ri2pi pio n Hrun].
  - unfold molecule_edges in Hrun.
    eapply (for_each_invariant P (λ _, True)); [| |exact HP|exact Hrun].
    + intros [a1 a2] s s' _ Hs Hbody.
      apply molecule_edge_cases in Hbody as [[_ ->]|[_ Hadd]]; [done|].
      eapply Hstep; eauto.
    + by apply Forall_true.
  - unfold reaction_edges in Hrun.
    eapply (for_each_invariant P (λ _, True)); [| |exact HP|exact Hrun].
    + intros [a1 a2] s s' _ Hs Hbody.
      apply reaction_edge_cases in Hbody as [->|Hadd]; [done|].
      eapply Hstep; eauto.
    + by apply Forall_true.
Qed.

Lemma loop_built_graph_ok (g : MolGraph.t) : loop_built g → graph_ok g.
Proof.
  intros (self & Hfresh & Hrun).
  destruct (edge_loop_edges_ok self g (fresh_edges_ok _ Hfresh) Hrun)
    as ((Hp & Hin & _) & _).
  destruct (edge_loop_origins self g Hfresh Hrun) as [Hlen Hall].
  done.
Qed.

Lemma graph_ok_wf (g : MolGraph.t) : graph_ok g → wf_graph g.
Proof. intros ((Hb & Hr & _) & _ & Ha & _). unfold wf_graph. lia. Qed.

Lemma first_frame_batch_ok (atom_row bond_row : list Q) :
  batch_ok (first_frame atom_row bond_row).
Proof.
  split; [done|]. split; [done|]. simpl.
  split; [intros [|e] r; [intros [= <-]; lia|done]|].
  split; [intros [|e] r; [intros [= <-]; lia|done]|].
  intros [|A] row; [by intros [= <-]|done].
Qed.

Lemma placed_after_batch_ok (g : MolGraph.t) (st st' : Frame.t) :
  graph_ok g → batch_ok st → placed_after g st st' → batch_ok st'.
Proof.
  intros Hg (Hok & Hone & Hrev & Hori & Hrows) Hplaced.
  pose proof (graph_ok_wf g Hg) as Hwf.
  pose proof (placed_after_frame_ok _ _ _ Hwf Hok Hplaced) as Hok'.
  destruct Hg as (Hp & Hin & Hla & Hall).
  pose proof Hp as (Pa & Pr & Hpair).
  destruct Hok as (La & Lb & Lr).
  destruct Hplaced as (Ena & Enb & Ea & Eb & Er & _).
  set (na := Frame.n_atoms st) in *. set (nb := Frame.n_bonds st) in *.
  (* destinations of the old and of the new edges *)
  assert (Hold : ∀ e, e < nb →
            batch_destination st' e = batch_destination st e
            ∧ ∀ x, batch_destination st e = Some x → x < na).
  { intros e He. unfold batch_destination. rewrite Er, Eb.
    rewrite lookup_app_l by lia.
    destruct (Frame.b2revb st !! e) as [r|] eqn:Hr; [|done]. simpl.
    pose proof (Hrev _ _ Hr) as Hlt.
    rewrite lookup_app_l by lia. split; [done|]. intros x. apply Hori. }
  assert (Hnew : ∀ b, b < MolGraph.n_bonds g →
            ∃ y, destination g b = Some y
                 ∧ batch_destination st' (nb + b) = Some (na + y)).
  { intros b Hb.
    destruct (Hpair b Hb) as (r & x & y & H1 & H2 & H3 & H4 & _).
    assert (Hr : r < MolGraph.n_bonds g)
      by (rewrite <- Pa; by eapply lookup_lt_Some).
    exists y. unfold destination, batch_destination. rewrite H1. simpl.
    split; [done|]. rewrite Er, Eb.
    rewrite (lookup_placed_at (λ r, nb + r) _ _ _ nb b r) by done. simpl.
    by rewrite (lookup_placed_at (λ x, na + x) _ _ _ nb r y) by done. }
  split; [done|]. split; [lia|]. split; [|split].
  - intros e r He. rewrite Er in He.
    apply lookup_app_Some in He as [He|[_ He]]; [apply Hrev in He; lia|].
    apply list_lookup_fmap_Some in He as (r0 & -> & He).
    apply lookup_take_Some in He as [He _].
    destruct (paired_reverse_lt _ _ _ Hp He). lia.
  - intros e x He. rewrite Eb in He.
    apply lookup_app_Some in He as [He|[_ He]]; [apply Hori in He; lia|].
    apply list_lookup_fmap_Some in He as (x0 & -> & He).
    apply lookup_take_Some in He as [He _].
    rewrite Forall_forall in Hall.
    pose proof (Hall x0 (list_elem_of_lookup_2 _ _ _ He)). lia.
  - intros A row Hrow. rewrite Enb.
    replace (nb + MolGraph.n_bonds g - 1)
      with ((nb - 1) + MolGraph.n_bonds g) by lia.
    rewrite seq_app, filter_app.
    replace (1 + (nb - 1)) with nb by lia.
    rewrite Ea in Hrow.
    apply lookup_app_Some in Hrow as [Hrow|[Hge Hrow]].
    + (* an atom placed before *)
      assert (HA : A < na) by (rewrite <- La; by eapply lookup_lt_Some).
      rewrite (filter_ext_in _ (λ e, batch_destination st e = Some A)
                 (seq 1 (nb - 1))).
      2:{ intros e He. apply elem_of_seq in He.
          destruct (Hold e) as [-> _]; [lia|done]. }
      rewrite (filter_none _ (seq nb (MolGraph.n_bonds g))).
      2:{ intros e He. apply elem_of_seq in He.
          destruct (Hnew (e - nb)) as (y & _ & Hd); [lia|].
          replace (nb + (e - nb)) with e in Hd by lia.
          rewrite Hd. intros [= <-]. lia. }
      rewrite app_nil_r. by apply Hrows.
    + (* an atom of this molecule *)
      rewrite La in Hge, Hrow.
      apply list_lookup_fmap_Some in Hrow as (row0 & -> & Hrow).
      apply lookup_take_Some in Hrow as [Hrow Ha].
      rewrite (filter_none _ (seq 1 (nb - 1))).
      2:{ intros e He. apply elem_of_seq in He.
          destruct (Hold e) as [-> Hlt]; [lia|].
          intros Hd. apply Hlt in Hd. lia. }
      rewrite (Hin _ _ Hrow). simpl.
      rewrite (seq_shift_fmap nb).
      symmetry. apply filter_fmap_shift. intros b Hb. apply elem_of_seq in Hb.
      destruct (Hnew b) as (y & Hy & Hd); [lia|].
      replace (b + nb) with (nb + b) by lia. rewrite Hd, Hy.
      split; intros [= E]; f_equal; lia.
Qed.

Lemma place_all_batch_ok (gs : list MolGraph.t) (st : Frame.t) :
  Forall graph_ok gs → batch_ok st →
  ∃ st', place_all gs st = inr st' ∧ batch_ok st'.
Proof.
  intros Hgs. revert st.
  induction Hgs as [|g gs Hg _ IH]; intros st Hst; [by exists st|].
  destruct (place_inr g st (graph_ok_wf g Hg)) as (s1 & Hrun & P).
  destruct (IH s1 (placed_after_batch_ok _ _ _ Hg Hst P)) as (st' & Hrest & Hst').
  exists st'. split; [|done].
  unfold place_all in *. simpl. by rewrite Hrun.
Qed.

(** X26. Graphs built by the edge loops are collated without an exception, and
    in the collated state the incoming-edge list of every atom, the padding
    atom included, is exactly the list of the batch edges after the padding
    edge whose destination is that atom, in increasing order; every origin
    and every reverse index points inside the batch. *)
Theorem batch_incoming_edges (gs : list MolGraph.t)
    (atom_row bond_row : list Q) :
  Forall loop_built gs →
  ∃ st,
    place_all gs (first_frame atom_row bond_row) = inr st
    ∧ (∀ e r, Frame.b2revb st !! e = Some r → r < Frame.n_bonds st)
    ∧ (∀ e x, Frame.b2a st !! e = Some x → x < Frame.n_atoms st)
    ∧ ∀ A row, Frame.a2b st !! A = Some row →
        row = filter (λ e, batch_destination st e = Some A)
                (seq 1 (Frame.n_bonds st - 1)).
Proof.
  intros Hgs.
  destruct (place_all_batch_ok gs (first_frame atom_row bond_row))
    as (st & Hrun & _ & _ & Hrev & Hori & Hrows).
  - eapply Forall_impl; [exact Hgs|]. apply loop_built_graph_ok.
  - apply first_frame_batch_ok.
  - by exists st.
Qed.

(** ** The two branches of the constructor, as written *)

Lemma atom_features_KeyError (atom : Atom) (fg : option (list Q)) :
  atom_features (Some atom) fg = inl KeyError.
Proof.
  unfold atom_features.
  destruct ATOM_FEATURES_lookup as (-> & -> & -> & -> & _ & ->).
  simpl.
  destruct (onek_encoding_unk_returns (GetAtomicNum atom - 1) (seqZ 0 100))
    as (e1 & -> & _).
  simpl.
  destruct (onek_encoding_unk_returns (GetTotalDegree atom) [0; 1; 2; 3; 4; 5]%Z)
    as (e2 & -> & _).
  simpl.
  destruct (onek_encoding_unk_returns (GetFormalCharge atom) [-1; -2; 1; 2; 0]%Z)
    as (e3 & -> & _).
  simpl.
  destruct (onek_encoding_unk_returns (GetChiralTag atom) [0; 1; 2; 3]%Z)
    as (e4 & -> & _).
  done.
Qed.

(** X3. The molecule branch raises [KeyError] for every molecule that has an
    atom, whatever extra features and overwrite flags are given: line 257
    featurizes the atoms before the extra features are looked at. *)
Theorem init_molecule_raises_KeyError (m : Mol)
    (afe bfe : option (list (list Q))) (oa ob : bool) (self : MolGraph.t) :
  GetAtoms m ≠ [] →
  init_molecule (OneMol m) afe bfe oa ob self = inl KeyError.
Proof.
  intros Hne. destruct m as [[|a rest] bonds]; [done|].
  unfold init_molecule. cbn -[atom_features].
  by rewrite atom_features_KeyError.
Qed.

Lemma init_molecule_raises_KeyError_witness :
  init_molecule (OneMol ethane) (Some [[1%Q]; [1%Q]]) None true false
    (new_self initial_globals true false)
  = inl KeyError.
Proof.
  apply (init_molecule_raises_KeyError ethane). discriminate.
Defined.

Lemma map_reac_to_prod_returns (mol_reac mol_prod : Mol) :
  if bool_decide (GetAtoms mol_reac = [])
  then map_reac_to_prod mol_reac mol_prod = None
  else is_Some (map_reac_to_prod mol_reac mol_prod).
Proof.
  unfold map_reac_to_prod.
  destruct (foldl _ _ _) as [pio p2i].
  unfold reac_loop, enumerate.
  destruct (GetAtoms mol_reac) as [|a rest]; [done|].
  rewrite bool_decide_eq_false_2 by done. simpl.
  case_bool_decide; [destruct (p2i !! GetAtomMapNum a)|]; by eexists.
Qed.

(** X20. The reaction branch never yields a graph. With extra features it raises
    [NotImplementedError]; on a molecule that is not a pair, or a pair whose
    reactant has no atom ([map_reac_to_prod] then returns [None], which
    cannot be unpacked), [TypeError]; on every other pair [KeyError], from
    the first reactant atom's features. *)
Theorem init_reaction_never_returns (mol : mol_input)
    (afe bfe : option (list (list Q))) (self : MolGraph.t) :
  init_reaction mol afe bfe self
  = inl match afe, bfe, mol with
        | Some _, _, _ | None, Some _, _ => NotImplementedError
        | None, None, OneMol _ => TypeError
        | None, None, MolPair mol_reac _ =>
            if bool_decide (GetAtoms mol_reac = []) then TypeError
            else KeyError
        end.
Proof.
  destruct afe as [afe|]; [done|]. destruct bfe as [bfe|]; [done|].
  destruct mol as [m|mol_reac mol_prod]; [done|].
  unfold init_reaction.
  change (is_not_none_and None _) with false.
  change (as_pair (MolPair mol_reac mol_prod)) with
    (inr (mol_reac, mol_prod) : result (Mol * Mol)).
  cbv beta iota. change (inr ?p ≫= ?k) with (k p). cbv beta iota.
  pose proof (map_reac_to_prod_returns mol_reac mol_prod) as Hmap.
  case_bool_decide as Hatoms.
  - by rewrite Hmap.
  - destruct Hmap as [[[ri2pi pio] rio] ->].
    change (unpack3 (Some ?x) ≫= ?k) with (k x). cbv beta iota.
    unfold reaction_atom_features.
    destruct (GetAtoms mol_reac) as [|a rest]; [done|].
    rewrite (comprehension_first_raises _ KeyError)
      by apply atom_features_KeyError.
    done.
Qed.

(** X2. [bond_features] never raises. Its vector has [BOND_FDIM] = 14 entries,
    each 0 or 1; the first entry is 1 exactly for the null bond, and at most
    one of the four bond-type entries is 1. *)
Theorem bond_features_shape (bond : option Bond) :
  ∃ v, bond_features bond = inr v
       ∧ length v = BOND_FDIM
       ∧ Forall (λ x, x = 0%Q ∨ x = 1%Q) v
       ∧ v !! 0 = Some (if bond is Some _ then 0%Q else 1%Q)
       ∧ ∀ i j, 1 ≤ i → i < j → j ≤ 4 →
           ¬ (v !! i = Some 1%Q ∧ v !! j = Some 1%Q).
Proof.
  destruct bond as [bond|].
  - unfold bond_features.
    destruct (onek_encoding_unk_total (GetStereo bond) (seqZ 0 6))
      as (k & Hk & -> & _).
    cbn [mbind result_bind mret result_ret]. eexists. split; [done|].
    split; [rewrite length_app, length_insert, length_replicate; done|].
    split.
    { apply Forall_app. split.
      - destruct (GetBondType bond) as [[]|], (GetIsConjugated bond),
          (IsInRing bond);
          repeat first [apply Forall_nil_2
                       |apply Forall_cons_2; [first [by left|by right]|]].
      - apply Forall_insert; [|by right].
        apply Forall_replicate. by left. }
    split; [done|].
    intros i j Hi Hij Hj [H1 H2].
    destruct i as [|[|[|[|i]]]], j as [|[|[|[|[|j]]]]]; try lia;
      destruct (GetBondType bond) as [[]|]; simpl in H1, H2; discriminate.
  - eexists. split; [done|]. split; [done|].
    split.
    { repeat first [apply Forall_nil_2
                   |apply Forall_cons_2; [first [by left|by right]|]]. }
    split; [done|].
    intros i j Hi Hij Hj [H1 H2].
    destruct i as [|[|[|[|i]]]]; try lia; simpl in H1; discriminate.
Qed.

(** ** The theorems at concrete molecules *)

Lemma incoming_edges_by_destination_witness :
  [1] = filter (λ b, destination (ethane_graph false false) b = Some 0)
          (seq 0 (MolGraph.n_bonds (ethane_graph false false))).
Proof.
  apply (incoming_edges_by_destination
           (at_edge_loop initial_globals [[1%Q]; [1%Q]] false false)
           (ethane_graph false false) 0 [1]).
  - repeat split.
  - apply (loop_molecule _ _ ethane None false). vm_compute. done.
  - reflexivity.
Defined.

Lemma edge_rows_share_bond_vector_witness :
  let self := at_edge_loop initial_globals [[1%Q]; [1%Q]] false false in
  let g := ethane_graph false false in
  MolGraph.f_atoms g = MolGraph.f_atoms self
  ∧ MolGraph.n_atoms g = MolGraph.n_atoms self
  ∧ length (MolGraph.f_bonds g) = MolGraph.n_bonds g
  ∧ ∀ b r x y,
      MolGraph.b2revb g !! b = Some r →
      MolGraph.b2a g !! b = Some x →
      MolGraph.b2a g !! r = Some y →
      ∃ fx fy f_bond,
        MolGraph.f_atoms g !! x = Some fx
        ∧ MolGraph.f_atoms g !! y = Some fy
        ∧ MolGraph.f_bonds g !! b = Some (fx ++ f_bond)
        ∧ MolGraph.f_bonds g !! r = Some (fy ++ f_bond).
Proof.
  intros self g. apply (edge_rows_share_bond_vector self g).
  - repeat split.
  - apply (loop_molecule _ _ ethane None false). vm_compute. done.
Defined.

Lemma molecule_edges_two_per_bond_witness :
  ∃ g, molecule_edges ethane None false
         (at_edge_loop initial_globals [[1%Q]; [1%Q]] false false) = inr g
       ∧ MolGraph.n_atoms g = GetNumAtoms ethane
       ∧ MolGraph.n_bonds g = 2 * length (GetBonds ethane).
Proof.
  apply (molecule_edges_two_per_bond ethane None false
           (at_edge_loop initial_globals [[1%Q]; [1%Q]] false false)).
  - split; [repeat constructor; simpl; lia|]. apply NoDup_singleton.
  - repeat split.
  - reflexivity.
  - vm_compute. lia.
  - intros extra [=].
Defined.

Lemma scopes_select_rows_witness :
  ∃ st a_start a_size b_start b_size,
    place_all ([lone_atom_graph] ++ ethane_graph false false :: [])
      (first_frame [0%Q] [0%Q]) = inr st
    ∧ Frame.a_scope st !! length [lone_atom_graph] = Some (a_start, a_size)
    ∧ Frame.b_scope st !! length [lone_atom_graph] = Some (b_start, b_size)
    ∧ take a_size (drop a_start (Frame.f_atoms st))
      = MolGraph.f_atoms (ethane_graph false false)
    ∧ take b_size (drop b_start (Frame.f_bonds st))
      = MolGraph.f_bonds (ethane_graph false false)
    ∧ Frame.f_atoms st !! 0 = Some [0%Q]
    ∧ Frame.f_bonds st !! 0 = Some [0%Q].
Proof.
  apply (scopes_select_rows [lone_atom_graph] [] (ethane_graph false false)
           [0%Q] [0%Q]).
  - repeat constructor; simpl; lia.
  - repeat constructor.
Defined.

Lemma batch_reverse_edges_witness :
  Frame.b2revb ethane_frame !! 0 = Some 0
  ∧ Frame.b2a ethane_frame !! 0 = Some 0
  ∧ ∀ e, 1 ≤ e < Frame.n_bonds ethane_frame →
      ∃ r x y, Frame.b2revb ethane_frame !! e = Some r
               ∧ Frame.b2revb ethane_frame !! r = Some e
               ∧ Frame.b2a ethane_frame !! e = Some x
               ∧ Frame.b2a ethane_frame !! r = Some y
               ∧ x ≠ y ∧ 1 ≤ r.
Proof.
  apply (batch_reverse_edges [ethane_graph false false] [0%Q] [0%Q]
           ethane_frame).
  - constructor; [|constructor].
    split; [reflexivity|]. split; [reflexivity|].
    intros [|[|b]] Hb.
    + exists 1, 0, 1. repeat split. lia.
    + exists 0, 1, 0. repeat split. lia.
    + simpl in Hb. lia.
  - vm_compute. reflexivity.
Defined.

Lemma batch_incoming_edges_witness :
  ∃ st,
    place_all [ethane_graph false false; ethane_graph false false]
      (first_frame [0%Q] [0%Q]) = inr st
    ∧ (∀ e r, Frame.b2revb st !! e = Some r → r < Frame.n_bonds st)
    ∧ (∀ e x, Frame.b2a st !! e = Some x → x < Frame.n_atoms st)
    ∧ ∀ A row, Frame.a2b st !! A = Some row →
        row = filter (λ e, batch_destination st e = Some A)
                (seq 1 (Frame.n_bonds st - 1)).
Proof.
  apply (batch_incoming_edges
           [ethane_graph false false; ethane_graph false false]
           [0%Q] [0%Q]).
  constructor; [|constructor; [|constructor]].
  - exists (at_edge_loop initial_globals [[1%Q]; [1%Q]] false false).
    split; [repeat split|].
    apply (loop_molecule _ _ ethane None false). vm_compute. done.
  - exists (at_edge_loop initial_globals [[1%Q]; [1%Q]] false false).
    split; [repeat split|].
    apply (loop_molecule _ _ ethane None false). vm_compute. done.
Defined.
